(** * collaborative-canvas: the room manager and its gateway

    A shallow embedding of [server/rooms.js] (class [RoomManager]) and of the
    socket handlers of [server/index.js], with the properties of the
    operation log: sequence numbers, undo and redo resolution, history and
    membership.

    Conventions of the embedding.
    - A JavaScript value is a [value]: a primitive or a plain object, as a
      message carries them.  Numbers are the integer-valued ones (and NaN),
      printed as decimal numerals; no property below depends on a fractional
      number.
    - A room identifier is whatever the caller passes ([RoomId]): the
      methods use it as a [Map] key and [appendOp] prints it into the
      operation identifier.  An object used as a room identifier is a plain
      object, known by its identity.  An object of a message that has a
      [toString] property of its own cannot be printed: [appendOp] throws on
      it, which the gateway model records.  Socket identifiers are strings.
    - Operation objects live in a store ([heap]); the room's array [ops] and
      its index [opMap] both hold references ([loc]) to the same objects, so
      that [target.active = false] is seen through either.
    - [room.seq] is a JavaScript number used as a counter from 0; it is
      modelled as a natural number.
    - [Date.now()] is an input of [appendOp]. *)

From Stdlib Require Import String Ascii ZArith List Lia DecimalString DecimalNat.
From stdpp Require Import base gmap strings list.

Set Warnings "-register-all".

(** ** JavaScript values *)

Inductive value : Type :=
| Undefined
| Null
| Bool (b : bool)
| Num (n : Z)
| NaN
| Str (s : string)
| Obj (props : list (string * value)).

(** [ToBoolean]: undefined, null, false, 0, NaN and the empty string are
    falsy; everything else, every object included, is truthy. *)
Definition truthy (v : value) : bool :=
  match v with
  | Undefined | Null | NaN => false
  | Bool b => b
  | Num n => negb (Z.eqb n 0)
  | Str s => negb (String.eqb s "")
  | Obj _ => true
  end.

Fixpoint assoc (k : string) (ps : list (string * value)) : value :=
  match ps with
  | [] => Undefined
  | (k', v) :: ps' => if String.eqb k k' then v else assoc k ps'
  end.

(** [v.k] for the property names read by the server ([type], [payload],
    [targetOpID], [roomId], ...): an own property of an object, [undefined]
    on a primitive.  Every read of a property of a possibly null value in
    the source is guarded ([a && a.k]). *)
Definition get_prop (v : value) (k : string) : value :=
  match v with
  | Obj ps => assoc k ps
  | _ => Undefined
  end.

(** [a && b] and [a || b] *)
Definition js_and (a b : value) : value := if truthy a then b else a.
Definition js_or (a b : value) : value := if truthy a then a else b.

(** [v === 'lit'] *)
Definition is_str (v : value) (lit : string) : bool :=
  match v with
  | Str s => String.eqb s lit
  | _ => false
  end.

Definition is_null (v : value) : bool :=
  match v with
  | Null => true
  | _ => false
  end.

(** A parameter with a default value: the default replaces [undefined] only. *)
Definition or_default (v d : value) : value :=
  match v with
  | Undefined => d
  | _ => v
  end.

(** ** Room identifiers

    The keys of [this.rooms].  A [Map] compares keys by SameValueZero:
    primitives by value (NaN is equal to itself, and there is one zero),
    objects by reference; an object is known here by its identity [ref]. *)

Inductive RoomId : Type :=
| RUndefined
| RNull
| RBool (b : bool)
| RNum (n : Z)
| RNaN
| RStr (s : string)
| RObj (ref : nat).

#[global] Instance RoomId_eq_dec : EqDecision RoomId := ltac:(solve_decision).

Coercion RStr : string >-> RoomId.

(** [String(n)] for an integer (one that prints as its decimal numeral, as
    every integer below 10^21 in magnitude does). *)
Definition String_of_Z (n : Z) : string := NilEmpty.string_of_int (Z.to_int n).

(** [`${roomId}`]: the string a template literal makes of a room identifier
    (a plain object prints through [Object.prototype.toString]). *)
Definition RoomId_to_string (roomId : RoomId) : string :=
  match roomId with
  | RUndefined => "undefined"
  | RNull => "null"
  | RBool true => "true"
  | RBool false => "false"
  | RNum n => String_of_Z n
  | RNaN => "NaN"
  | RStr s => s
  | RObj _ => "[object Object]"
  end.

(** ** Maps with insertion order ([Map]); the keys are compared by [decide] *)

Section InsertionOrderedMap.
Context {K : Type} `{EqDecision K} {V : Type}.

Fixpoint aget (k : K) (m : list (K * V)) : option V :=
  match m with
  | [] => None
  | (k', v) :: m' => if decide (k = k') then Some v else aget k m'
  end.

Definition ahas (k : K) (m : list (K * V)) : bool :=
  match aget k m with
  | Some _ => true
  | None => false
  end.

(** [Map.prototype.set]: an existing key keeps its position. *)
Fixpoint aset (k : K) (v : V) (m : list (K * V)) : list (K * V) :=
  match m with
  | [] => [(k, v)]
  | (k', v') :: m' =>
      if decide (k = k') then (k, v) :: m' else (k', v') :: aset k v m'
  end.

(** [Map.prototype.delete]: the map without the key, and whether the key
    was there. *)
Fixpoint adelete (k : K) (m : list (K * V)) : list (K * V) * bool :=
  match m with
  | [] => ([], false)
  | (k', v') :: m' =>
      if decide (k = k') then (m', true)
      else let '(m'', b) := adelete k m' in ((k', v') :: m'', b)
  end.
End InsertionOrderedMap.

(** ** The data model *)

(** A reference to an operation object: its position in the store. *)
Abbreviation loc := nat (only parsing).

Record Op : Type := mkOp {
  seq : nat;
  opID : string;
  clientId : string;
  type : value;
  payload : value;
  timestamp : Z;
  active : bool;
}.

Definition set_active (b : bool) (o : Op) : Op :=
  {| seq := seq o; opID := opID o; clientId := clientId o; type := type o;
     payload := payload o; timestamp := timestamp o; active := b |}.

Record ClientInfo : Type := mkClientInfo {
  ci_clientId : string;
  username : value;
  color : value;
}.

(** [{ clients: Map(socketId -> clientInfo), ops: [], seq: number,
       opMap: Map(opID -> op) }] *)
Record Room : Type := mkRoom {
  clients : list (string * ClientInfo);
  ops : list loc;
  rseq : nat;
  opMap : gmap string loc;
}.

Record RoomManager : Type := mkManager {
  rooms : list (RoomId * Room);
  heap : list Op;
}.

(** [new RoomManager()] *)
Definition constructor : RoomManager := {| rooms := []; heap := [] |}.

Definition fresh_room : Room :=
  {| clients := []; ops := []; rseq := 0; opMap := ∅ |}.

(** ** [String(seq).padStart(6, '0')] and the operation identifier *)

Definition String_of_nat (n : nat) : string :=
  NilEmpty.string_of_uint (Nat.to_uint n).

Fixpoint repeat_char (c : ascii) (n : nat) : string :=
  match n with
  | 0 => ""
  | S n' => String c (repeat_char c n')
  end.

Definition padStart (s : string) (targetLength : nat) (c : ascii) : string :=
  repeat_char c (targetLength - String.length s) +:+ s.

(** [`${roomId}::${String(seq).padStart(6, '0')}`] *)
Definition mk_opID (roomId : RoomId) (n : nat) : string :=
  RoomId_to_string roomId +:+ "::" +:+ padStart (String_of_nat n) 6 "0".

(** ** RoomManager methods *)

Definition _ensure (m : RoomManager) (roomId : RoomId) : RoomManager :=
  if ahas roomId (rooms m) then m
  else {| rooms := aset roomId fresh_room (rooms m); heap := heap m |}.

Definition addClient (m : RoomManager) (roomId : RoomId) (socketId : string)
    (username color : value) : RoomManager * option ClientInfo :=
  let username := or_default username (Str "Anon") in
  let color := or_default color (Str "#000") in
  let m := _ensure m roomId in
  match aget roomId (rooms m) with
  | None => (m, None)
  | Some room =>
      let info := {| ci_clientId := socketId; username := username; color := color |} in
      let room' := {| clients := aset socketId info (clients room); ops := ops room;
                      rseq := rseq room; opMap := opMap room |} in
      ({| rooms := aset roomId room' (rooms m); heap := heap m |},
       aget socketId (clients room'))
  end.

(** The loop of [removeClientBySocket] over [this.rooms.entries()]. *)
Fixpoint remove_loop (socketId : string) (rs : list (RoomId * Room))
    : list (RoomId * Room) * list RoomId :=
  match rs with
  | [] => ([], [])
  | (roomId, room) :: rs' =>
      let '(cs, deleted) := adelete socketId (clients room) in
      let room' := {| clients := cs; ops := ops room; rseq := rseq room;
                      opMap := opMap room |} in
      let '(rs'', roomsLeft) := remove_loop socketId rs' in
      ((roomId, room') :: rs'', if deleted then roomId :: roomsLeft else roomsLeft)
  end.

Definition removeClientBySocket (m : RoomManager) (socketId : string)
    : RoomManager * list RoomId :=
  let '(rs, roomsLeft) := remove_loop socketId (rooms m) in
  ({| rooms := rs; heap := heap m |}, roomsLeft).

Definition getClients (m : RoomManager) (roomId : RoomId)
    : RoomManager * list ClientInfo :=
  let m := _ensure m roomId in
  match aget roomId (rooms m) with
  | None => (m, [])
  | Some room => (m, map snd (clients room))
  end.

(** [arr.slice(start)] for an integer [start >= 0]. *)
Definition slice_from {A} (start : Z) (arr : list A) : list A :=
  drop (Z.to_nat start) arr.

(** [getHistory(roomId, limit = 500)]; [None] is an omitted limit.  The
    result is a new array of references to the logged objects. *)
Definition getHistory (m : RoomManager) (roomId : RoomId) (limit : option Z)
    : RoomManager * list loc :=
  let limit := match limit with Some n => n | None => 500%Z end in
  let m := _ensure m roomId in
  match aget roomId (rooms m) with
  | None => (m, [])
  | Some room =>
      (m, slice_from (Z.max 0 (Z.of_nat (length (ops room)) - limit)) (ops room))
  end.

(** The backward loop of the undo branch:
    [for (let i = room.ops.length - 1; i >= 0; i--)], entered with
    [n = room.ops.length]; it inspects index [n - 1] first. *)
Fixpoint scan (h : list Op) (log : list loc) (n : nat) : option (loc * Op) :=
  match n with
  | 0 => None
  | S i =>
      match log !! i with
      | Some l =>
          match h !! l with
          | Some o => if is_str (type o) "stroke" && active o then Some (l, o)
                      else scan h log i
          | None => scan h log i
          end
      | None => scan h log i
      end
  end.

(** [room.opMap.get(targetOpID)]: the keys are strings, so a key of another
    type is never found. *)
Definition opMap_get (mp : gmap string loc) (k : value) : option loc :=
  match k with
  | Str s => mp !! s
  | _ => None
  end.

(** [stamped.payload && stamped.payload.targetOpID] *)
Definition requested_target (pl : value) : value :=
  js_and pl (get_prop pl "targetOpID").

(** The undo / redo / stroke / presence cascade of [appendOp]: the store
    after the mutation of the target, and the payload of the stamped
    operation. *)
Definition resolve (room : Room) (h : list Op) (ty pl : value) : list Op * value :=
  if is_str ty "undo" then
    let targetOpID := requested_target pl in
    if truthy targetOpID then
      match opMap_get (opMap room) targetOpID with
      | Some target => (alter (set_active false) target h, pl)
      | None => (h, pl)
      end
    else
      match scan h (ops room) (length (ops room)) with
      | Some (l, o) =>
          (alter (set_active false) l h, Obj [("targetOpID", Str (opID o))])
      | None => (h, pl)
      end
  else if is_str ty "redo" then
    let targetOpID := requested_target pl in
    if truthy targetOpID then
      match opMap_get (opMap room) targetOpID with
      | Some target => (alter (set_active true) target h, pl)
      | None => (h, pl)
      end
    else (h, pl)
  else if is_str ty "stroke" then (h, pl)
  else if is_str ty "presence" then (h, pl)
  else (h, pl).

(** [opRaw.payload || opRaw.payload === null ? opRaw.payload : opRaw]: the
    conditional binds weaker than [||]. *)
Definition raw_payload (opRaw : list (string * value)) : value :=
  let p := assoc "payload" opRaw in
  if truthy p || is_null p then p else Obj opRaw.

(** [appendOp(roomId, opRaw = {}, socketId)]: [opRaw] is the property list
    of the raw operation object.  Returns the reference to the stamped
    operation. *)
Definition appendOp (m : RoomManager) (roomId : RoomId)
    (opRaw : list (string * value)) (socketId : string) (now : Z)
    : RoomManager * loc :=
  let m := _ensure m roomId in
  match aget roomId (rooms m) with
  | None => (m, length (heap m))
  | Some room =>
      let seq' := S (rseq room) in
      let opID' := mk_opID roomId seq' in
      let ty := assoc "type" opRaw in
      let '(h, pl) := resolve room (heap m) ty (raw_payload opRaw) in
      let stamped := {| seq := seq'; opID := opID'; clientId := socketId;
                        type := ty; payload := pl; timestamp := now;
                        active := true |} in
      let l := length h in
      let room' := {| clients := clients room; ops := ops room ++ [l];
                      rseq := seq'; opMap := <[opID' := l]> (opMap room) |} in
      ({| rooms := aset roomId room' (rooms m); heap := h ++ [stamped] |}, l)
  end.

(** ** The gateway: the socket handlers of [server/index.js]

    A handler takes the manager and the socket identifier and returns the
    new manager and the messages it emits, with the logged objects
    serialised as they are at that moment.  The result is [None] when the
    handler throws: on destructuring [null], and in [appendOp] when the room
    identifier cannot be printed.  Nothing in the server catches the
    exception. *)

Inductive inbound : Type :=
| JoinRoom (arg : value)
| OpMsg (op : value) (now : Z)
| Cursor (arg : value)
| Disconnect.

Inductive outbound : Type :=
| Joined (to clientId : string) (roomId : RoomId) (peers : list ClientInfo)
| Presence (roomId : RoomId) (cl : list ClientInfo)
| History (to : string) (sent : list Op)
| OpBroadcast (roomId : RoomId) (stamped : Op)
| PeerCursor (roomId : RoomId) (from : string) (x y : value).

Definition ref_of (roomId : RoomId) : option nat :=
  match roomId with
  | RObj ref => Some ref
  | _ => None
  end.

(** An object that arrives in a message is a new object: its identity is
    one that no key of the room map has. *)
Definition fresh_ref (m : RoomManager) : nat :=
  S (max_list (omap ref_of (rooms m).*1)).

(** The room identifier read from a message, as a key of the room map. *)
Definition room_key (m : RoomManager) (v : value) : RoomId :=
  match v with
  | Undefined => RUndefined
  | Null => RNull
  | Bool b => RBool b
  | Num n => RNum n
  | NaN => RNaN
  | Str s => RStr s
  | Obj _ => RObj (fresh_ref m)
  end.

(** [Object.prototype.hasOwnProperty] *)
Definition has_own (k : string) (ps : list (string * value)) : bool :=
  existsb (λ p, String.eqb p.1 k) ps.

(** Whether [`${v}`] throws for a value of a message: an object is printed
    by its [toString], and an own property [toString] of a message's object
    is no function, so that neither it nor the inherited [valueOf] gives a
    primitive. *)
Definition template_throws (v : value) : bool :=
  match v with
  | Obj ps => has_own "toString" ps
  | _ => false
  end.

(** References read through the store. *)
Definition deref (h : list Op) (ls : list loc) : list Op :=
  omap (λ l, h !! l) ls.

(** The loop of the disconnect handler over [leftRooms]. *)
Fixpoint notify_left (m : RoomManager) (leftRooms : list RoomId)
    : RoomManager * list outbound :=
  match leftRooms with
  | [] => (m, [])
  | roomId :: rest =>
      let '(m1, cl) := getClients m roomId in
      let '(m2, out) := notify_left m1 rest in
      (m2, Presence roomId cl :: out)
  end.

Definition handle (m : RoomManager) (socket_id : string) (e : inbound)
    : option (RoomManager * list outbound) :=
  match e with
  | JoinRoom arg =>
      if is_null arg then None else
      let roomId := room_key m (or_default (get_prop arg "roomId") (Str "room1")) in
      let username := or_default (get_prop arg "username") (Str "Anon") in
      let color := or_default (get_prop arg "color") (Str "#000000") in
      let '(m1, _) := addClient m roomId socket_id username color in
      let '(m2, peers) := getClients m1 roomId in
      let '(m3, cl) := getClients m2 roomId in
      let '(m4, history) := getHistory m3 roomId None in
      Some (m4, [Joined socket_id socket_id roomId peers;
                 Presence roomId cl;
                 History socket_id (deref (heap m4) history)])
  | OpMsg op now =>
      if negb (truthy op) || negb (truthy (get_prop op "type")) then Some (m, []) else
      match op with
      | Obj opRaw =>
          let roomId := js_or (get_prop op "roomId") (Str "room1") in
          if template_throws roomId then None else
          let roomId := room_key m roomId in
          let '(m1, stamped) := appendOp m roomId opRaw socket_id now in
          Some (m1, omap (λ l, OpBroadcast roomId <$> heap m1 !! l) [stamped])
      | _ => Some (m, [])
      end
  | Cursor arg =>
      if is_null arg then None else
      let roomId := room_key m (or_default (get_prop arg "roomId") (Str "room1")) in
      Some (m, [PeerCursor roomId socket_id (get_prop arg "x") (get_prop arg "y")])
  | Disconnect =>
      let '(m1, leftRooms) := removeClientBySocket m socket_id in
      Some (notify_left m1 leftRooms)
  end.

(** ** Executions

    A manager state is reached from [new RoomManager()] by a sequence of
    method calls. *)

Inductive call : Type :=
| AddClient (roomId : RoomId) (socketId : string) (username color : value)
| RemoveClientBySocket (socketId : string)
| GetClients (roomId : RoomId)
| GetHistory (roomId : RoomId) (limit : option Z)
| AppendOp (roomId : RoomId) (opRaw : list (string * value)) (socketId : string) (now : Z).

Definition exec (m : RoomManager) (c : call) : RoomManager :=
  match c with
  | AddClient r s u c => fst (addClient m r s u c)
  | RemoveClientBySocket s => fst (removeClientBySocket m s)
  | GetClients r => fst (getClients m r)
  | GetHistory r lim => fst (getHistory m r lim)
  | AppendOp r raw s now => fst (appendOp m r raw s now)
  end.

Definition run (cs : list call) : RoomManager := foldl exec constructor cs.

(** ** Views used in the statements *)

(** The room as the methods see it after [_ensure]. *)
Definition room_of (m : RoomManager) (roomId : RoomId) : Room :=
  default fresh_room (aget roomId (rooms m)).

(** The operation log of a room, read through the store. *)
Definition log (m : RoomManager) (roomId : RoomId) : list Op :=
  deref (heap m) (ops (room_of m roomId)).

(** The operation a room's index holds under an identifier. *)
Definition lookup_op (m : RoomManager) (roomId : RoomId) (k : string) : option Op :=
  opMap (room_of m roomId) !! k ≫= λ l, heap m !! l.

(** A stroke that replay shows: [type = stroke] and [active = true]. *)
Definition active_stroke (o : Op) : bool := is_str (type o) "stroke" && active o.

(** The most recent active stroke of a log, in the spec's words: the last
    entry, in log order, that is an active stroke. *)
Definition newest_active_stroke (lg : list Op) : option Op :=
  last (filter (λ o, active_stroke o = true) lg).

(** How many [appendOp] calls of a trace name a room. *)
Definition appends_to (roomId : RoomId) (cs : list call) : nat :=
  length (filter (λ c, match c with
                       | AppendOp r _ _ _ => bool_decide (r = roomId)
                       | _ => false
                       end = true) cs).

(** The undo message of the client, [{ type: 'undo', payload: {} }], and an
    undo that names its target. *)
Definition undo_raw (target : option string) : list (string * value) :=
  match target with
  | Some k => [("type", Str "undo"); ("payload", Obj [("targetOpID", Str k)])]
  | None => [("type", Str "undo"); ("payload", Obj [])]
  end.

(** ** Definitions used in the statements and in the proofs *)

(** Whether a string has a colon; the padded decimal of [mk_opID] has none. *)
Fixpoint has_colon (s : string) : bool :=
  match s with
  | EmptyString => false
  | String c s' => Ascii.eqb c ":" || has_colon s'
  end.

(** What the cascade of [appendOp] does to the store: nothing, or one
    assignment [target.active = b]. *)
Inductive heap_step (h : list Op) : list Op → Prop :=
| heap_same : heap_step h h
| heap_flag (l : loc) (b : bool) : heap_step h (alter (set_active b) l h).

(** The invariant of a room: its counter is the length of its log; the
    object at position [i] carries [seq = i + 1] and the identifier made
    from the room and that number; the index maps exactly these identifiers
    to these objects; a client has one entry. *)
Record room_wf (h : list Op) (rid : RoomId) (r : Room) : Prop := {
  wf_len : length (ops r) = rseq r;
  wf_ops : ∀ i l, ops r !! i = Some l →
           ∃ o, h !! l = Some o ∧ seq o = S i ∧ opID o = mk_opID rid (S i);
  wf_map : ∀ k l, opMap r !! k = Some l ↔
                  ∃ i, ops r !! i = Some l ∧ k = mk_opID rid (S i);
  wf_clients : NoDup (clients r).*1;
}.

(** The invariant of the manager: every room is well formed, an object is
    logged in one room at one position, and a room has one entry. *)
Record wf (m : RoomManager) : Prop := {
  wf_rooms : ∀ rid r, aget rid (rooms m) = Some r → room_wf (heap m) rid r;
  wf_owner : ∀ rid1 r1 i1 rid2 r2 i2 l,
      aget rid1 (rooms m) = Some r1 → aget rid2 (rooms m) = Some r2 →
      ops r1 !! i1 = Some l → ops r2 !! i2 = Some l → rid1 = rid2 ∧ i1 = i2;
  wf_keys : NoDup (rooms m).*1;
}.

(** The three parts of the result of [appendOp], named: the stamped
    operation, the store after the cascade, the room after the push. *)
Definition stamped_op (m : RoomManager) (roomId : RoomId)
    (opRaw : list (string * value)) (socketId : string) (now : Z) : Op :=
  let room := room_of m roomId in
  {| seq := S (rseq room); opID := mk_opID roomId (S (rseq room));
     clientId := socketId; type := assoc "type" opRaw;
     payload := (resolve room (heap m) (assoc "type" opRaw) (raw_payload opRaw)).2;
     timestamp := now; active := true |}.

Definition resolved_heap (m : RoomManager) (roomId : RoomId)
    (opRaw : list (string * value)) : list Op :=
  (resolve (room_of m roomId) (heap m) (assoc "type" opRaw) (raw_payload opRaw)).1.

Definition pushed_room (m : RoomManager) (roomId : RoomId) : Room :=
  let room := room_of m roomId in
  {| clients := clients room; ops := ops room ++ [length (heap m)];
     rseq := S (rseq room);
     opMap := <[mk_opID roomId (S (rseq room)) := length (heap m)]> (opMap room) |}.

(** A room with another membership map. *)
Definition with_clients (cs : list (string * ClientInfo)) (room : Room) : Room :=
  {| clients := cs; ops := ops room; rseq := rseq room; opMap := opMap room |}.

(** The room left by [room.clients.delete(socketId)]. *)
Definition strip (socketId : string) (room : Room) : Room :=
  with_clients (adelete socketId (clients room)).1 room.

(** [flag_cause opRaw o b]: the call with [opRaw] assigns [b] to the flag of
    the logged operation [o]. *)
Inductive flag_cause (opRaw : list (string * value)) (o : Op) : bool → Prop :=
| cause_undo_newest :
    assoc "type" opRaw = Str "undo" →
    truthy (requested_target (raw_payload opRaw)) = false →
    active_stroke o = true →
    flag_cause opRaw o false
| cause_undo_named :
    assoc "type" opRaw = Str "undo" →
    requested_target (raw_payload opRaw) = Str (opID o) →
    flag_cause opRaw o false
| cause_redo_named :
    assoc "type" opRaw = Str "redo" →
    requested_target (raw_payload opRaw) = Str (opID o) →
    flag_cause opRaw o true.


(** The last [n] entries of a list, in the order of the list. *)
Definition last_n {A} (n : nat) (l : list A) : list A :=
  drop (length l - n) l.

(** A stroke message as the client sends it. *)
Definition stroke_raw : list (string * value) :=
  [("roomId", Str "room1"); ("type", Str "stroke");
   ("payload", Obj [("color", Str "#00b4d8"); ("width", Num 4); ("tool", Str "brush")])].

(** Two strokes S1, S2 logged in room1. *)
Definition two_strokes : list call :=
  [AppendOp "room1" stroke_raw "a" 10%Z; AppendOp "room1" stroke_raw "b" 20%Z].

(** The two strokes as they are stamped. *)
Definition S1 : Op :=
  {| seq := 1; opID := "room1::000001"; clientId := "a"; type := Str "stroke";
     payload := Obj [("color", Str "#00b4d8"); ("width", Num 4); ("tool", Str "brush")];
     timestamp := 10; active := true |}.

Definition S2 : Op :=
  {| seq := 2; opID := "room1::000002"; clientId := "b"; type := Str "stroke";
     payload := Obj [("color", Str "#00b4d8"); ("width", Num 4); ("tool", Str "brush")];
     timestamp := 20; active := true |}.


(** S2 after an undo has taken it. *)
Definition S2_undone : Op :=
  {| seq := 2; opID := "room1::000002"; clientId := "b"; type := Str "stroke";
     payload := Obj [("color", Str "#00b4d8"); ("width", Num 4); ("tool", Str "brush")];
     timestamp := 20; active := false |}.

(** ** The client: the operation log of [client/main.js]

    The client keeps the stamped operations it receives in [app.ops].  The
    functions below give [app.ops] after a call: they follow the statements
    of the source that write [app.ops]; the other statements (the layer
    cache, [pendingLocalTempMap], the canvas) never write it, and when one of
    them throws, [app.ops] is left as computed here.  An operation reaches
    the client with the fields the server emitted. *)

(** [app.ops.some(o => o.opID === op.opID)] *)
Definition has_opID (ops : list Op) (k : string) : bool :=
  existsb (λ o, String.eqb (opID o) k) ops.

(** [for (const o of app.ops) { if (o.opID === target) o.active = b; }] *)
Definition flag_all (target : value) (b : bool) (ops : list Op) : list Op :=
  (λ o, if is_str target (opID o) then set_active b o else o) <$> ops.

(** The cascade on [op.type] of [applyStampedOp], after the push. *)
Definition apply_flags (op : Op) (ops : list Op) : list Op :=
  if is_str (type op) "stroke" then ops
  else if is_str (type op) "undo" then
    let target := requested_target (payload op) in
    if truthy target then flag_all target false ops else ops
  else if is_str (type op) "redo" then
    let target := requested_target (payload op) in
    if truthy target then flag_all target true ops else ops
  else ops.

(** [applyStampedOp(op)] *)
Definition applyStampedOp (ops : list Op) (op : Op) : list Op :=
  if has_opID ops (opID op) then ops
  else apply_flags op (ops ++ [op]).

(** [syncOpsFromServer(serverOps)]: [app.ops = serverOps.slice()] *)
Definition syncOpsFromServer (serverOps : list Op) : list Op := serverOps.

(** *** The layer cache and the canvas

    The client as a whole: [app.ops], the keys of [app.layerCache], and the
    layers that the compositing loop of [redrawAll] has drawn on the main
    canvas since it was last cleared, in order.  A handler that throws
    leaves the client in the state it has reached, and the next message is
    handled from there.  The canvas has a size, so that [createLayerForOp]
    and [drawImage] return. *)
Record App : Type := mkApp {
  app_ops : list Op;
  layerCache : list string;
  canvas : list Op;
}.

(** [renderStrokeToLayer(layer, op)], whether it returns.  [p.points] throws
    when the payload is null or undefined.  [drawSmoothPathOnCtx] returns at
    once when [points] is falsy; what it does otherwise, measuring and
    walking [points] and setting the colour and the width of the payload on
    the layer, is [path]. *)
Definition renderStrokeToLayer (path : value → bool) (op : Op) : bool :=
  match payload op with
  | Null | Undefined => false
  | p => if truthy (get_prop p "points") then path p else true
  end.

(** The compositing loop of [redrawAll] over [app.ops], after
    [ctx.clearRect]: the cache after the loop, the layers drawn, and whether
    the loop ran to its end. *)
Fixpoint composite (path : value → bool) (cache : list string) (ops : list Op)
    : list string * list Op * bool :=
  match ops with
  | [] => (cache, [], true)
  | op :: rest =>
      if is_str (type op) "stroke" && active op then
        if bool_decide (opID op ∈ cache) then
          let '(cache', drawn, ok) := composite path cache rest in
          (cache', op :: drawn, ok)
        else if renderStrokeToLayer path op then
          let '(cache', drawn, ok) := composite path (opID op :: cache) rest in
          (cache', op :: drawn, ok)
        else (cache, [], false)
      else composite path cache rest
  end.

(** [redrawAll()] *)
Definition redrawAll (path : value → bool) (a : App) : App :=
  let '(cache, drawn, _) := composite path (layerCache a) (app_ops a) in
  {| app_ops := app_ops a; layerCache := cache; canvas := drawn |}.

(** The loop of [syncOpsFromServer] that makes the layers of the active
    strokes: the cache, and whether the loop ran to its end. *)
Fixpoint sync_layers (path : value → bool) (cache : list string) (ops : list Op)
    : list string * bool :=
  match ops with
  | [] => (cache, true)
  | op :: rest =>
      if is_str (type op) "stroke" && active op then
        if renderStrokeToLayer path op
        then sync_layers path (opID op :: cache) rest
        else (cache, false)
      else sync_layers path cache rest
  end.

(** The handler of [history]: [syncOpsFromServer(ops)] with the cache and
    the canvas. *)
Definition on_history (path : value → bool) (a : App) (serverOps : list Op) : App :=
  let '(cache, ok) := sync_layers path [] serverOps in
  let a1 := {| app_ops := syncOpsFromServer serverOps; layerCache := cache;
               canvas := canvas a |} in
  if ok then redrawAll path a1 else a1.

(** The handler of [op]: [applyStampedOp(op)] with the cache and the
    canvas. *)
Definition on_op (path : value → bool) (a : App) (op : Op) : App :=
  if has_opID (app_ops a) (opID op) then a
  else
    let ops1 := app_ops a ++ [op] in
    if is_str (type op) "stroke" then
      if renderStrokeToLayer path op
      then redrawAll path {| app_ops := ops1; layerCache := opID op :: layerCache a;
                             canvas := canvas a |}
      else {| app_ops := ops1; layerCache := layerCache a; canvas := canvas a |}
    else redrawAll path {| app_ops := apply_flags op ops1; layerCache := layerCache a;
                           canvas := canvas a |}.

(** The operations of a list up to the first that does not satisfy [f]. *)
Fixpoint upto {A} (f : A → bool) (l : list A) : list A :=
  match l with
  | [] => []
  | x :: l' => if f x then x :: upto f l' else []
  end.

(** A client whose cache holds layers only of operations it has, made
    without a throw, and that has no identifier twice. *)
Definition cache_ok (path : value → bool) (a : App) : Prop :=
  NoDup (opID <$> app_ops a) ∧
  ∀ k, k ∈ layerCache a →
       ∃ o, o ∈ app_ops a ∧ opID o = k ∧ renderStrokeToLayer path o = true.

(** The message of [requestUndo] and of the clear button. *)
Definition undo_message : value :=
  Obj [("roomId", Str "room1"); ("type", Str "undo"); ("payload", Obj [])].

(** The click handler of the clear button: the [op] messages it emits, given
    the answer to [confirm]. *)
Definition clear_messages (confirmed : bool) (ops : list Op) : list value :=
  let activeStrokes := filter (λ o, is_str (type o) "stroke" && active o = true) ops in
  if confirmed then replicate (length activeStrokes) undo_message else [].

(** [makeTempId()]: the counter after the call and the identifier,
    [`${app.clientId || 'local'}::t${app.tempCounter}`]; [app.clientId] is
    null or the socket identifier. *)
Definition makeTempId (clientId : option string) (tempCounter : nat) : nat * string :=
  let tempCounter := S tempCounter in
  let cid := match clientId with
             | Some c => if String.eqb c "" then "local" else c
             | None => "local"
             end in
  (tempCounter, cid +:+ "::t" +:+ String_of_nat tempCounter).

(** ** Server and client together *)

(** The gateway over a sequence of socket events, each with the socket it
    comes from. *)
Fixpoint serve (m : RoomManager) (evs : list (string * inbound))
    : option (RoomManager * list outbound) :=
  match evs with
  | [] => Some (m, [])
  | (sock, e) :: evs' =>
      match handle m sock e with
      | None => None
      | Some (m1, out1) =>
          match serve m1 evs' with
          | None => None
          | Some (m2, out2) => Some (m2, out1 ++ out2)
          end
      end
  end.


(** The operations broadcast to a room while a trace of calls runs from
    [m]: one per [appendOp] on that room, as the object is at that time. *)
Fixpoint broadcasts (roomId : RoomId) (m : RoomManager) (cs : list call) : list Op :=
  match cs with
  | [] => []
  | c :: cs' =>
      match c with
      | AppendOp r raw s now =>
          if decide (r = roomId)
          then option_list (heap (appendOp m r raw s now).1 !! (appendOp m r raw s now).2)
          else []
      | _ => []
      end ++ broadcasts roomId (exec m c) cs'
  end.

(** The history a joining client is sent: [getHistory(roomId)] read at the
    time of the call. *)
Definition history_sent (m : RoomManager) (roomId : RoomId) : list Op :=
  deref (heap (getHistory m roomId None).1) (getHistory m roomId None).2.

(** The events by which one socket delivers a list of [op] messages, the
    server reading [clock i] from [Date.now()] for the message of rank [i]. *)
Definition deliver (sock : string) (msgs : list value) (clock : nat → Z)
    : list (string * inbound) :=
  imap (λ i msg, (sock, OpMsg msg (clock i))) msgs.

(** The number of active strokes of a log. *)
Definition active_count (lg : list Op) : nat :=
  length (filter (λ o, active_stroke o = true) lg).

(** The keys of the room map, in insertion order. *)
Definition room_ids (m : RoomManager) : list RoomId := (rooms m).*1.

(** Every membership entry is filed under the client identifier it holds. *)
Definition clients_keyed (m : RoomManager) : Prop :=
  ∀ rid r s info, aget rid (rooms m) = Some r → (s, info) ∈ clients r →
                  ci_clientId info = s.

(** A client's copy of a logged operation: the same in every field but
    possibly [active], and the same in [active] too unless the operation is
    an undo or a redo. *)
Definition replica_of (oc os : Op) : Prop :=
  set_active true oc = set_active true os ∧
  (active oc = active os ∨ is_str (type os) "undo" = true ∨ is_str (type os) "redo" = true).

(** The operations a member of a room receives on the [op] channel: those
    of the emitted messages that are broadcasts to that room. *)
Definition room_broadcasts (roomId : RoomId) (out : list outbound) : list Op :=
  omap (λ msg, match msg with
               | OpBroadcast r u => if decide (r = roomId) then Some u else None
               | _ => None
               end) out.

(** ** Lemmas on insertion-ordered maps *)

Section InsertionOrderedMapFacts.
Context {K : Type} `{EqDecision K} {V : Type}.
Implicit Types (m : list (K * V)) (k : K) (v : V).

Lemma aget_aset_eq k v m : aget k (aset k v m) = Some v.
Proof.
  induction m as [|[k' v'] m IH]; simpl; repeat case_decide; simpl;
    repeat case_decide; congruence.
Qed.

Lemma aget_aset_ne k k' v m : k ≠ k' → aget k' (aset k v m) = aget k' m.
Proof.
  intros Hne. induction m as [|[k0 v0] m IH]; simpl; repeat case_decide; simpl;
    repeat case_decide; congruence.
Qed.

Lemma aget_aset k k' v m :
  aget k' (aset k v m) = if decide (k = k') then Some v else aget k' m.
Proof.
  case_decide; subst; auto using aget_aset_eq, aget_aset_ne.
Qed.

Lemma aget_None_keys k m : aget k m = None ↔ k ∉ m.*1.
Proof.
  induction m as [|[k' v'] m IH]; simpl.
  - split; [intros _; apply not_elem_of_nil | done].
  - rewrite not_elem_of_cons. case_decide; subst.
    + split; [done | intros [? _]; done].
    + rewrite IH. tauto.
Qed.

Lemma aget_Some_elem k v m : aget k m = Some v → (k, v) ∈ m.
Proof.
  induction m as [|[k' v'] m IH]; simpl; [done|].
  case_decide; subst.
  - intros [= ->]. apply list_elem_of_here.
  - intros. apply list_elem_of_further. auto.
Qed.

Lemma elem_aget k v m : NoDup m.*1 → (k, v) ∈ m → aget k m = Some v.
Proof.
  induction m as [|[k' v'] m IH]; simpl.
  - intros _ H. by apply elem_of_nil in H.
  - rewrite NoDup_cons. intros [Hk Hnd] [Heq | Hin]%elem_of_cons.
    + injection Heq as -> ->. by rewrite decide_True.
    + case_decide; subst; [|auto].
      exfalso. apply Hk. apply list_elem_of_fmap. by exists (k', v).
Qed.

Lemma aset_keys k v m :
  (aset k v m).*1 = if ahas k m then m.*1 else m.*1 ++ [k].
Proof.
  unfold ahas. induction m as [|[k' v'] m IH]; csimpl; [done|].
  case_decide; subst; csimpl; [done|].
  rewrite IH. by destruct (aget k m).
Qed.

Lemma aset_NoDup k v m : NoDup m.*1 → NoDup (aset k v m).*1.
Proof.
  intros Hnd. rewrite aset_keys. unfold ahas.
  destruct (aget k m) eqn:E; [done|].
  apply NoDup_app. split_and!; [done | | apply NoDup_singleton].
  intros x Hx ->%list_elem_of_singleton. by apply aget_None_keys in E.
Qed.

Lemma adelete_absent k m : aget k m = None → adelete k m = (m, false).
Proof.
  induction m as [|[k' v'] m IH]; simpl; [done|].
  case_decide; [done|]. intros E. by rewrite IH.
Qed.

Lemma adelete_flag k m : (adelete k m).2 = ahas k m.
Proof.
  unfold ahas. induction m as [|[k' v'] m IH]; simpl; [done|].
  case_decide; [done|]. destruct (adelete k m). simpl in *. done.
Qed.

Lemma adelete_keys_subset k k' m : k' ∈ (adelete k m).1.*1 → k' ∈ m.*1.
Proof.
  induction m as [|[k0 v0] m IH]; simpl; [done|].
  case_decide; subst; simpl.
  - apply list_elem_of_further.
  - destruct (adelete k m) as [m' b]. simpl in *.
    rewrite !elem_of_cons. intros [->|]; auto.
Qed.

Lemma adelete_NoDup k m : NoDup m.*1 → NoDup (adelete k m).1.*1.
Proof.
  induction m as [|[k0 v0] m IH]; simpl; [done|].
  rewrite NoDup_cons. intros [Hk Hnd]. case_decide; subst; simpl; [done|].
  specialize (IH Hnd). pose proof (adelete_keys_subset k k0 m) as Hs.
  destruct (adelete k m) as [m' b]. simpl in *.
  apply NoDup_cons; auto.
Qed.

Lemma aget_adelete_eq k m : NoDup m.*1 → aget k (adelete k m).1 = None.
Proof.
  induction m as [|[k0 v0] m IH]; simpl; [done|].
  rewrite NoDup_cons. intros [Hk Hnd]. case_decide; subst; simpl.
  - by apply aget_None_keys.
  - specialize (IH Hnd). destruct (adelete k m) as [m' b]. simpl in *.
    by rewrite decide_False.
Qed.

Lemma aget_adelete_ne k k' m : k ≠ k' → aget k' (adelete k m).1 = aget k' m.
Proof.
  intros Hne. induction m as [|[k0 v0] m IH]; simpl; [done|].
  case_decide; subst; simpl.
  - by rewrite decide_False.
  - destruct (adelete k m) as [m' b]. simpl in *. by rewrite IH.
Qed.
End InsertionOrderedMapFacts.

(** ** An operation identifier gives the printed room identifier and the
    sequence number *)

Lemma string_app_nil (t : string) : "" +:+ t = t.
Proof. reflexivity. Qed.

Lemma string_app_cons c (s t : string) : String c s +:+ t = String c (s +:+ t).
Proof. reflexivity. Qed.

Lemma has_colon_app s t : has_colon (s +:+ t) = has_colon s || has_colon t.
Proof.
  induction s as [|c s IH]; [done|].
  rewrite string_app_cons. simpl. by rewrite IH, orb_assoc.
Qed.

Lemma has_colon_repeat_zero n : has_colon (repeat_char "0" n) = false.
Proof. induction n; simpl; auto. Qed.

Lemma has_colon_uint d : has_colon (NilEmpty.string_of_uint d) = false.
Proof. induction d; simpl; auto. Qed.

Lemma has_colon_pad n : has_colon (padStart (String_of_nat n) 6 "0") = false.
Proof.
  unfold padStart, String_of_nat.
  by rewrite has_colon_app, has_colon_repeat_zero, has_colon_uint.
Qed.

Lemma string_app_assoc (s t u : string) : (s +:+ t) +:+ u = s +:+ t +:+ u.
Proof.
  induction s as [|c s IH]; [done|]. rewrite !string_app_cons. by rewrite IH.
Qed.

(** A string is cut in one way only at its last colon. *)
Lemma split_last_colon s1 s2 r1 r2 :
  has_colon r1 = false → has_colon r2 = false →
  s1 +:+ String ":" r1 = s2 +:+ String ":" r2 → s1 = s2 ∧ r1 = r2.
Proof.
  intros H1 H2. revert s2.
  induction s1 as [|c s1 IH]; intros [|d s2];
    rewrite ?string_app_nil, ?string_app_cons; intros E.
  - by injection E.
  - injection E as _ ->. rewrite has_colon_app in H1. simpl in H1.
    by rewrite orb_true_r in H1.
  - injection E as _ <-. rewrite has_colon_app in H2. simpl in H2.
    by rewrite orb_true_r in H2.
  - injection E as -> E. destruct (IH _ E) as [-> ->]. done.
Qed.

Lemma of_uint_D0 u : Nat.of_uint (Decimal.D0 u) = Nat.of_uint u.
Proof. reflexivity. Qed.

Lemma parse_pad_zero k s :
  option_map Nat.of_uint (NilEmpty.uint_of_string (repeat_char "0" k +:+ s))
  = option_map Nat.of_uint (NilEmpty.uint_of_string s).
Proof.
  induction k as [|k IH]; [done|].
  simpl repeat_char. rewrite string_app_cons. simpl.
  revert IH. destruct (NilEmpty.uint_of_string (repeat_char "0" k +:+ s)),
    (NilEmpty.uint_of_string s); simpl; rewrite ?of_uint_D0; congruence.
Qed.

(** Reading the padded decimal back gives the number. *)
Lemma parse_pad n :
  option_map Nat.of_uint
    (NilEmpty.uint_of_string (padStart (String_of_nat n) 6 "0")) = Some n.
Proof.
  unfold padStart, String_of_nat.
  rewrite parse_pad_zero, NilEmpty.usu. simpl.
  by rewrite DecimalNat.Unsigned.of_to.
Qed.

Lemma mk_opID_inj r1 n1 r2 n2 :
  mk_opID r1 n1 = mk_opID r2 n2 →
  RoomId_to_string r1 = RoomId_to_string r2 ∧ n1 = n2.
Proof.
  unfold mk_opID. intros E.
  assert (∀ r p, r +:+ "::" +:+ p = (r +:+ ":") +:+ String ":" p) as Hcut.
  { intros r p. by rewrite string_app_assoc. }
  rewrite !Hcut in E.
  apply split_last_colon in E as [E1 E2]; auto using has_colon_pad.
  split.
  - by apply (split_last_colon _ _ "" "") in E1 as [-> _].
  - pose proof (parse_pad n1) as P1. rewrite E2, parse_pad in P1. congruence.
Qed.

(** ** The store under [appendOp]: at most one flag assignment *)

Lemma heap_step_length h h' : heap_step h h' → length h' = length h.
Proof. intros []; [done | apply length_alter]. Qed.

Lemma heap_step_lookup h h' l o :
  heap_step h h' → h !! l = Some o →
  ∃ b, h' !! l = Some (set_active b o).
Proof.
  intros [|l' b] Hl.
  - exists (active o). by destruct o.
  - destruct (decide (l' = l)) as [->|Hne].
    + exists b. by rewrite list_lookup_alter_eq, Hl.
    + exists (active o). rewrite list_lookup_alter_ne by done. by destruct o.
Qed.

Lemma resolve_heap_step room h ty pl : heap_step h (resolve room h ty pl).1.
Proof.
  unfold resolve.
  repeat match goal with
         | |- context [match ?x with _ => _ end] => destruct x
         end; simpl; constructor.
Qed.

(** ** The backward scan finds the last active stroke *)

Lemma scan_Some h lg n l o :
  scan h lg n = Some (l, o) →
  ∃ i, i < n ∧ lg !! i = Some l ∧ h !! l = Some o ∧ active_stroke o = true ∧
       ∀ j l' o', i < j < n → lg !! j = Some l' → h !! l' = Some o' →
                  active_stroke o' = false.
Proof.
  induction n as [|n IH]; simpl; [done|].
  destruct (lg !! n) as [l1|] eqn:E1;
    [destruct (h !! l1) as [o1|] eqn:E2;
       [fold (active_stroke o1); destruct (active_stroke o1) eqn:E3|]|].
  { intros [= -> ->]. exists n. split_and!; auto with lia. }
  all: intros Hs; destruct (IH Hs) as (i & Hi & Hl & Ho & Ha & Hlast);
    exists i; split_and!; auto with lia;
    intros j l' o' Hj Hl' Ho'; destruct (decide (j = n)) as [->|];
    [ congruence | apply (Hlast j l' o'); auto with lia ].
Qed.

Lemma scan_None h lg n :
  scan h lg n = None →
  ∀ j l' o', j < n → lg !! j = Some l' → h !! l' = Some o' →
             active_stroke o' = false.
Proof.
  induction n as [|n IH]; simpl; [intros; lia|].
  destruct (lg !! n) as [l1|] eqn:E1;
    [destruct (h !! l1) as [o1|] eqn:E2;
       [fold (active_stroke o1); destruct (active_stroke o1) eqn:E3|]|];
    [done|..];
    (intros Hs j l' o' Hj Hl' Ho'; destruct (decide (j = n)) as [->|];
     [ congruence | apply (IH Hs j l' o'); auto with lia ]).
Qed.

(** ** Well-formed managers *)

Lemma room_wf_fresh h rid : room_wf h rid fresh_room.
Proof.
  split; simpl; [done | done | | apply NoDup_nil_2].
  intros k l. rewrite lookup_empty. split; [done | by intros (i & ? & _)].
Qed.

Lemma room_wf_heap_step h h' rid r :
  heap_step h h' → room_wf h rid r → room_wf h' rid r.
Proof.
  intros Hs [Hlen Hops Hmap Hcl]. split; auto.
  intros i l Hl. destruct (Hops i l Hl) as (o & Ho & Hseq & Hid).
  destruct (heap_step_lookup _ _ _ _ Hs Ho) as [b Hb].
  exists (set_active b o). by split_and!.
Qed.

Lemma room_wf_snoc h o rid r : room_wf h rid r → room_wf (h ++ [o]) rid r.
Proof.
  intros [Hlen Hops Hmap Hcl]. split; auto.
  intros i l Hl. destruct (Hops i l Hl) as (o' & Ho & Hseq & Hid).
  exists o'. split_and!; auto. by apply lookup_app_l_Some.
Qed.

Lemma room_wf_bound h rid r i l : room_wf h rid r → ops r !! i = Some l → l < length h.
Proof.
  intros [_ Hops _ _] Hl. destruct (Hops i l Hl) as (o & Ho & _).
  by eapply lookup_lt_Some.
Qed.

(** ** [_ensure] *)

Lemma ensure_heap m rid : heap (_ensure m rid) = heap m.
Proof. unfold _ensure. by destruct (ahas rid (rooms m)). Qed.

Lemma ensure_get m rid :
  aget rid (rooms (_ensure m rid)) = Some (room_of m rid).
Proof.
  unfold _ensure, room_of, ahas.
  destruct (aget rid (rooms m)) eqn:E; simpl; [done|]. apply aget_aset_eq.
Qed.

Lemma ensure_get_ne m rid rid' :
  rid ≠ rid' → aget rid' (rooms (_ensure m rid)) = aget rid' (rooms m).
Proof.
  intros Hne. unfold _ensure. destruct (ahas rid (rooms m)); simpl; [done|].
  by apply aget_aset_ne.
Qed.

Lemma ensure_room_of m rid rid' : room_of (_ensure m rid) rid' = room_of m rid'.
Proof.
  unfold room_of at 1. destruct (decide (rid = rid')) as [->|Hne].
  - by rewrite ensure_get.
  - by rewrite ensure_get_ne.
Qed.

Lemma wf_ensure m rid : wf m → wf (_ensure m rid).
Proof.
  intros [Hr Ho Hk]. unfold _ensure, ahas.
  destruct (aget rid (rooms m)) eqn:E; [done|].
  assert (∀ rid' r, aget rid' (aset rid fresh_room (rooms m)) = Some r →
                    (rid' = rid ∧ r = fresh_room) ∨ aget rid' (rooms m) = Some r) as Hget.
  { intros rid' r. rewrite aget_aset. case_decide; subst; [|auto].
    intros [= <-]. auto. }
  split; simpl.
  - intros rid' r [[-> ->]|H]%Hget; [apply room_wf_fresh | auto].
  - intros rid1 r1 i1 rid2 r2 i2 l [[-> ->]|H1]%Hget; [done|].
    intros [[-> ->]|H2]%Hget; [done|]. eauto.
  - by apply aset_NoDup.
Qed.

Lemma wf_constructor : wf constructor.
Proof. split; simpl; [done | done | apply NoDup_nil_2]. Qed.

(** ** [appendOp] in one equation *)

Lemma resolved_heap_step m rid raw : heap_step (heap m) (resolved_heap m rid raw).
Proof. apply resolve_heap_step. Qed.

Lemma appendOp_eq m rid raw s now :
  appendOp m rid raw s now =
  ({| rooms := aset rid (pushed_room m rid) (rooms (_ensure m rid));
      heap := resolved_heap m rid raw ++ [stamped_op m rid raw s now] |},
   length (heap m)).
Proof.
  unfold appendOp, stamped_op, resolved_heap, pushed_room.
  rewrite ensure_get, ensure_heap.
  pose proof (resolve_heap_step (room_of m rid) (heap m) (assoc "type" raw)
                (raw_payload raw)) as Hs%heap_step_length.
  destruct (resolve _ _ _ _) as [h pl]. simpl in *. by rewrite Hs.
Qed.

Lemma appendOp_heap m rid raw s now :
  heap (appendOp m rid raw s now).1
  = resolved_heap m rid raw ++ [stamped_op m rid raw s now].
Proof. by rewrite appendOp_eq. Qed.

Lemma appendOp_get m rid raw s now rid' :
  aget rid' (rooms (appendOp m rid raw s now).1)
  = if decide (rid = rid') then Some (pushed_room m rid) else aget rid' (rooms m).
Proof.
  rewrite appendOp_eq. simpl. rewrite aget_aset. case_decide; [done|].
  by apply ensure_get_ne.
Qed.

Lemma appendOp_room_of m rid raw s now rid' :
  room_of (appendOp m rid raw s now).1 rid'
  = if decide (rid = rid') then pushed_room m rid else room_of m rid'.
Proof. unfold room_of at 1. rewrite appendOp_get. by case_decide. Qed.

Lemma room_of_wf m rid : wf m → room_wf (heap m) rid (room_of m rid).
Proof.
  intros Hwf. unfold room_of. destruct (aget rid (rooms m)) eqn:E; simpl.
  - by apply Hwf.
  - apply room_wf_fresh.
Qed.

Lemma pushed_room_wf m rid raw s now :
  wf m →
  room_wf (resolved_heap m rid raw ++ [stamped_op m rid raw s now]) rid
          (pushed_room m rid).
Proof.
  intros Hwf.
  pose proof (resolved_heap_step m rid raw) as Hs.
  pose proof (room_wf_heap_step _ _ _ _ Hs (room_of_wf m rid Hwf)) as [Hlen Hops Hmap Hcl].
  pose proof (heap_step_length _ _ Hs) as Hhl.
  split; simpl; [| | |done].
  - rewrite length_app. simpl. lia.
  - intros i l [[_ Hl]|[-> <-]]%lookup_snoc_Some.
    + destruct (Hops i l Hl) as (o & Ho & ? & ?). exists o.
      split_and!; auto. by apply lookup_app_l_Some.
    + exists (stamped_op m rid raw s now). rewrite <- Hhl, Hlen.
      split_and!; [|done..]. by rewrite lookup_app_r, Nat.sub_diag by lia.
  - intros k l. rewrite lookup_insert_Some. split.
    + intros [[<- <-]|[Hne Hk]].
      * exists (length (ops (room_of m rid))). rewrite Hlen. split; [|done].
        rewrite <- Hlen. by rewrite lookup_app_r, Nat.sub_diag by lia.
      * apply Hmap in Hk as (i & Hi & ->). exists i. split; [|done].
        by apply lookup_app_l_Some.
    + intros (i & [[_ Hi]|[-> <-]]%lookup_snoc_Some & ->).
      * right. split; [|apply Hmap; eauto].
        intros [_ E]%mk_opID_inj. apply lookup_lt_Some in Hi. lia.
      * left. by rewrite Hlen.
Qed.

Lemma wf_appendOp m rid raw s now : wf m → wf (appendOp m rid raw s now).1.
Proof.
  intros Hwf.
  pose proof (resolved_heap_step m rid raw) as Hs.
  pose proof (heap_step_length _ _ Hs) as Hhl.
  assert (∀ rid' r i l, aget rid' (rooms m) = Some r → ops r !! i = Some l →
                        l < length (heap m)) as Hbound.
  { intros rid' r i l Hr Hl. eapply room_wf_bound; [|done]. by apply Hwf. }
  assert (∀ i l, ops (room_of m rid) !! i = Some l → l < length (heap m)) as Hbound'.
  { intros i l Hl. eapply room_wf_bound; [|done]. by apply room_of_wf. }
  assert (∀ rid' r i l, rid' ≠ rid → aget rid' (rooms m) = Some r →
            ops r !! i = Some l → ¬ (∃ j, ops (room_of m rid) !! j = Some l)) as Hother.
  { intros rid' r i l Hne Hr Hl [j Hj]. unfold room_of in Hj.
    destruct (aget rid (rooms m)) as [r0|] eqn:E0; simpl in Hj; [|done].
    destruct (wf_owner m Hwf rid' r i rid r0 j l); auto. }
  split.
  - intros rid' r. rewrite appendOp_get, appendOp_heap. case_decide; subst.
    + intros [= <-]. by apply pushed_room_wf.
    + intros Hr. apply room_wf_snoc. eapply room_wf_heap_step; [done|].
      by apply Hwf.
  - intros rid1 r1 i1 rid2 r2 i2 l. rewrite !appendOp_get.
    repeat case_decide; subst.
    + intros [= <-] [= <-]. simpl. intros H1 H2. split; [done|].
      apply lookup_snoc_Some in H1 as [[_ H1]|[-> <-]];
        apply lookup_snoc_Some in H2 as [[_ H2]|[-> E2]].
      * pose proof (room_of_wf m rid2 Hwf) as Hrw. unfold room_of in *.
        destruct (aget rid2 (rooms m)) as [r0|] eqn:E0; simpl in *; [|done].
        by destruct (wf_owner m Hwf rid2 r0 i1 rid2 r0 i2 l).
      * apply Hbound' in H1. lia.
      * apply Hbound' in H2. lia.
      * done.
    + intros [= <-] Hr2. simpl. intros [[_ H1]|[-> <-]]%lookup_snoc_Some H2.
      * exfalso. eapply (Hother rid2 r2 i2 l); eauto.
      * eapply Hbound in H2; [|done]. lia.
    + intros Hr1 [= <-]. simpl. intros H1 [[_ H2]|[-> <-]]%lookup_snoc_Some.
      * exfalso. eapply (Hother rid1 r1 i1 l); eauto.
      * eapply Hbound in H1; [|done]. lia.
    + intros. eapply (wf_owner m Hwf); eauto.
  - rewrite appendOp_eq. simpl. apply aset_NoDup. by apply wf_ensure.
Qed.

(** ** The membership methods and the readers keep the manager well formed *)

Lemma room_wf_with_clients h rid r cs :
  NoDup cs.*1 → room_wf h rid r → room_wf h rid (with_clients cs r).
Proof. intros Hnd [? ? ? ?]. by split. Qed.

Lemma addClient_eq m rid s u c :
  (addClient m rid s u c).1 =
  {| rooms := aset rid
       (with_clients
          (aset s {| ci_clientId := s; username := or_default u (Str "Anon");
                     color := or_default c (Str "#000") |}
                (clients (room_of m rid)))
          (room_of m rid))
       (rooms (_ensure m rid));
     heap := heap m |}.
Proof. unfold addClient. by rewrite ensure_get, ensure_heap. Qed.

Lemma wf_addClient m rid s u c : wf m → wf (addClient m rid s u c).1.
Proof.
  intros Hwf. rewrite addClient_eq.
  pose proof (wf_ensure m rid Hwf) as [Hr Ho Hk].
  pose proof (ensure_get m rid) as Hg. rewrite ensure_heap in Hr.
  split; simpl.
  - intros rid' r. rewrite aget_aset. case_decide; subst; [|by auto].
    intros [= <-]. apply room_wf_with_clients; [|by auto].
    apply aset_NoDup. by apply (Hr rid').
  - intros rid1 r1 i1 rid2 r2 i2 l. rewrite !aget_aset.
    repeat case_decide; subst; intros H1 H2; simplify_eq; simpl; eauto.
  - by apply aset_NoDup.
Qed.

Lemma remove_loop_eq s rs :
  remove_loop s rs =
  (prod_map id (strip s) <$> rs,
   (filter (λ e, ahas s (clients e.2) = true) rs).*1).
Proof.
  induction rs as [|[rid r] rs IH]; [done|].
  simpl. rewrite IH. unfold strip, with_clients at 1.
  pose proof (adelete_flag s (clients r)) as Hf.
  destruct (adelete s (clients r)) as [cs b]. simpl in Hf. subst b.
  rewrite filter_cons. simpl. by destruct (ahas s (clients r)).
Qed.

Lemma removeClientBySocket_eq m s :
  removeClientBySocket m s =
  ({| rooms := prod_map id (strip s) <$> rooms m; heap := heap m |},
   (filter (λ e, ahas s (clients e.2) = true) (rooms m)).*1).
Proof. unfold removeClientBySocket. by rewrite remove_loop_eq. Qed.

Lemma aget_fmap_rooms (f : Room → Room) rid (rs : list (RoomId * Room)) :
  aget rid (prod_map id f <$> rs) = f <$> aget rid rs.
Proof.
  induction rs as [|[k r] rs IH]; [done|]. csimpl. by case_decide.
Qed.

Lemma fmap_rooms_keys (f : Room → Room) (rs : list (RoomId * Room)) :
  (prod_map id f <$> rs).*1 = rs.*1.
Proof.
  rewrite <- list_fmap_compose. apply list_fmap_ext. by intros ? [].
Qed.

Lemma wf_removeClientBySocket m s : wf m → wf (removeClientBySocket m s).1.
Proof.
  intros [Hr Ho Hk]. rewrite removeClientBySocket_eq. split; simpl.
  - intros rid r. rewrite aget_fmap_rooms.
    destruct (aget rid (rooms m)) as [r0|] eqn:E; [|done]. intros [= <-].
    apply room_wf_with_clients; [|by auto].
    apply adelete_NoDup. by apply (Hr rid).
  - intros rid1 r1 i1 rid2 r2 i2 l. rewrite !aget_fmap_rooms.
    destruct (aget rid1 (rooms m)) as [r1'|] eqn:E1; [|done].
    destruct (aget rid2 (rooms m)) as [r2'|] eqn:E2; [|done].
    intros [= <-] [= <-]. simpl. eauto.
  - by rewrite fmap_rooms_keys.
Qed.

Lemma getClients_fst m rid : (getClients m rid).1 = _ensure m rid.
Proof. unfold getClients. by rewrite ensure_get. Qed.

Lemma getHistory_fst m rid lim : (getHistory m rid lim).1 = _ensure m rid.
Proof. unfold getHistory. by rewrite ensure_get. Qed.

Lemma wf_exec m c : wf m → wf (exec m c).
Proof.
  destruct c; simpl; rewrite ?getClients_fst, ?getHistory_fst;
    auto using wf_addClient, wf_removeClientBySocket, wf_ensure, wf_appendOp.
Qed.

Lemma run_snoc cs c : run (cs ++ [c]) = exec (run cs) c.
Proof. unfold run. by rewrite foldl_snoc. Qed.

Lemma wf_run cs : wf (run cs).
Proof.
  induction cs as [|c cs IH] using rev_ind; [apply wf_constructor|].
  rewrite run_snoc. by apply wf_exec.
Qed.

(** ** Reading a log through the store *)

Lemma deref_lookup h ls i :
  (∀ j l, ls !! j = Some l → l < length h) →
  deref h ls !! i = ls !! i ≫= λ l, h !! l.
Proof.
  unfold deref. revert i. induction ls as [|l ls IH]; intros i Hb; [done|].
  assert (is_Some (h !! l)) as [o Ho].
  { apply lookup_lt_is_Some. by apply (Hb 0). }
  csimpl. rewrite Ho. simpl. destruct i as [|i]; simpl; [done|].
  apply IH. intros j l'. apply (Hb (S j)).
Qed.

Lemma deref_length h ls :
  (∀ j l, ls !! j = Some l → l < length h) → length (deref h ls) = length ls.
Proof.
  unfold deref. induction ls as [|l ls IH]; intros Hb; [done|].
  assert (is_Some (h !! l)) as [o Ho].
  { apply lookup_lt_is_Some. by apply (Hb 0). }
  csimpl. rewrite Ho. simpl. f_equal. apply IH. intros j l'. apply (Hb (S j)).
Qed.

Lemma deref_snoc_heap h o ls :
  (∀ j l, ls !! j = Some l → l < length h) → deref (h ++ [o]) ls = deref h ls.
Proof.
  unfold deref. induction ls as [|l ls IH]; intros Hb; [done|].
  csimpl. rewrite lookup_app_l by by apply (Hb 0).
  rewrite IH; [done|]. intros j l'. apply (Hb (S j)).
Qed.

Lemma deref_push h o ls :
  (∀ j l, ls !! j = Some l → l < length h) →
  deref (h ++ [o]) (ls ++ [length h]) = deref h ls ++ [o].
Proof.
  intros Hb. unfold deref. rewrite omap_app. fold (deref (h ++ [o]) ls).
  rewrite deref_snoc_heap by done. f_equal. csimpl.
  by rewrite lookup_app_r, Nat.sub_diag by lia.
Qed.

Lemma log_lookup m rid i :
  wf m → log m rid !! i = ops (room_of m rid) !! i ≫= λ l, heap m !! l.
Proof.
  intros Hwf. apply deref_lookup. intros j l.
  apply room_wf_bound with rid. by apply room_of_wf.
Qed.

Lemma log_length m rid : wf m → length (log m rid) = rseq (room_of m rid).
Proof.
  intros Hwf. pose proof (room_of_wf m rid Hwf) as Hr.
  rewrite <- (wf_len _ _ _ Hr). apply deref_length. intros j l.
  by apply room_wf_bound with rid.
Qed.

Lemma log_seq_opID m rid i o :
  wf m → log m rid !! i = Some o → seq o = S i ∧ opID o = mk_opID rid (S i).
Proof.
  intros Hwf. rewrite log_lookup by done.
  destruct (ops (room_of m rid) !! i) as [l|] eqn:E; [|done].
  destruct (wf_ops _ _ _ (room_of_wf m rid Hwf) i l E) as (o' & Ho & ? & ?).
  simpl. rewrite Ho. by intros [= <-].
Qed.

Lemma log_seqs m rid :
  wf m → seq <$> log m rid = List.seq 1 (rseq (room_of m rid)).
Proof.
  intros Hwf. apply list_eq. intros i. rewrite list_lookup_fmap.
  destruct (log m rid !! i) as [o|] eqn:E; simpl.
  - destruct (log_seq_opID m rid i o Hwf E) as [-> _].
    apply lookup_lt_Some in E. rewrite log_length in E by done.
    by rewrite lookup_seq_lt.
  - apply lookup_ge_None in E. rewrite log_length in E by done.
    by rewrite lookup_seq_ge.
Qed.

(** The log of every room after [appendOp]: the old entries read through
    the store after the flag assignment, and the stamped operation at the
    end of the room named by the call. *)
Lemma appendOp_log m rid raw s now rid' :
  wf m →
  log (appendOp m rid raw s now).1 rid'
  = deref (resolved_heap m rid raw) (ops (room_of m rid'))
    ++ (if decide (rid = rid') then [stamped_op m rid raw s now] else []).
Proof.
  intros Hwf. unfold log. rewrite appendOp_heap, appendOp_room_of.
  pose proof (heap_step_length _ _ (resolved_heap_step m rid raw)) as Hhl.
  assert (∀ j l, ops (room_of m rid') !! j = Some l →
                 l < length (resolved_heap m rid raw)) as Hb.
  { intros j l Hl. rewrite Hhl. eapply room_wf_bound; [|done].
    by apply room_of_wf. }
  case_decide; subst; simpl.
  - rewrite <- Hhl. by apply deref_push.
  - rewrite app_nil_r. by apply deref_snoc_heap.
Qed.

Lemma appendOp_stamped m rid raw s now :
  heap (appendOp m rid raw s now).1 !! (appendOp m rid raw s now).2
  = Some (stamped_op m rid raw s now).
Proof.
  rewrite appendOp_eq. simpl.
  rewrite <- (heap_step_length _ _ (resolved_heap_step m rid raw)).
  by rewrite lookup_app_r, Nat.sub_diag by lia.
Qed.

(** ** Counting the appends of a trace *)

Lemma appends_to_snoc rid cs c :
  appends_to rid (cs ++ [c])
  = appends_to rid cs
    + match c with
      | AppendOp r _ _ _ => if decide (r = rid) then 1 else 0
      | _ => 0
      end.
Proof.
  unfold appends_to. rewrite filter_app, length_app. f_equal.
  destruct c as [| | | |r raw s now]; try done. rewrite filter_cons. simpl.
  destruct (decide (r = rid)) as [->|Hne].
  - by rewrite bool_decide_true.
  - by rewrite bool_decide_false.
Qed.

Lemma exec_rseq m c rid :
  rseq (room_of (exec m c) rid)
  = rseq (room_of m rid)
    + match c with
      | AppendOp r _ _ _ => if decide (r = rid) then 1 else 0
      | _ => 0
      end.
Proof.
  destruct c as [r s u c|s|r|r lim|r raw s now]; simpl;
    rewrite ?getClients_fst, ?getHistory_fst, ?ensure_room_of; try lia.
  - rewrite addClient_eq. unfold room_of at 1. simpl. rewrite aget_aset.
    case_decide; subst; simpl; [lia|].
    fold (room_of (_ensure m r) rid). rewrite ensure_room_of. lia.
  - rewrite removeClientBySocket_eq. unfold room_of. simpl.
    rewrite aget_fmap_rooms. destruct (aget rid (rooms m)); simpl; lia.
  - rewrite appendOp_room_of. case_decide; subst; simpl; lia.
Qed.

Lemma run_rseq cs rid : rseq (room_of (run cs) rid) = appends_to rid cs.
Proof.
  induction cs as [|c cs IH] using rev_ind; [done|].
  by rewrite run_snoc, exec_rseq, appends_to_snoc, IH.
Qed.

(** ** C1: sequence numbers *)

(** C1. After any trace of method calls, the sequence numbers stored in the
    log of a room are exactly 1, 2, ..., N in log order, where N is the
    number of [appendOp] calls of the trace that name the room: they start
    at 1, increase strictly, and have no duplicate and no gap; and the next
    [appendOp] on that room stamps N + 1. *)
Theorem C1_seq_exact (cs : list call) (roomId : RoomId) :
  seq <$> log (run cs) roomId = List.seq 1 (appends_to roomId cs) ∧
  NoDup (seq <$> log (run cs) roomId) ∧
  (∀ i j oi oj, i < j → log (run cs) roomId !! i = Some oi →
                log (run cs) roomId !! j = Some oj → seq oi < seq oj) ∧
  ∀ opRaw socketId now,
    seq <$> heap (appendOp (run cs) roomId opRaw socketId now).1
              !! (appendOp (run cs) roomId opRaw socketId now).2
    = Some (S (appends_to roomId cs)).
Proof.
  assert (seq <$> log (run cs) roomId = List.seq 1 (appends_to roomId cs)) as Hseq.
  { rewrite log_seqs by apply wf_run. by rewrite run_rseq. }
  split_and!.
  - done.
  - rewrite Hseq. apply NoDup_seq.
  - intros i j oi oj Hij Hi Hj.
    destruct (log_seq_opID _ _ _ _ (wf_run cs) Hi) as [-> _].
    destruct (log_seq_opID _ _ _ _ (wf_run cs) Hj) as [-> _]. lia.
  - intros. rewrite appendOp_stamped. simpl. by rewrite run_rseq.
Qed.

(** ** The cascade, branch by branch *)

Lemma resolve_undo_explicit room h pl :
  truthy (requested_target pl) = true →
  resolve room h (Str "undo") pl =
  (match opMap_get (opMap room) (requested_target pl) with
   | Some target => alter (set_active false) target h
   | None => h
   end, pl).
Proof.
  intros Ht. unfold resolve. simpl. rewrite Ht.
  by destruct (opMap_get _ _).
Qed.

Lemma resolve_undo_implicit room h pl :
  truthy (requested_target pl) = false →
  resolve room h (Str "undo") pl =
  match scan h (ops room) (length (ops room)) with
  | Some (l, o) => (alter (set_active false) l h, Obj [("targetOpID", Str (opID o))])
  | None => (h, pl)
  end.
Proof. intros Ht. unfold resolve. simpl. by rewrite Ht. Qed.

Lemma resolve_redo_explicit room h pl :
  truthy (requested_target pl) = true →
  resolve room h (Str "redo") pl =
  (match opMap_get (opMap room) (requested_target pl) with
   | Some target => alter (set_active true) target h
   | None => h
   end, pl).
Proof.
  intros Ht. unfold resolve. simpl. rewrite Ht.
  by destruct (opMap_get _ _).
Qed.

Lemma resolve_redo_implicit room h pl :
  truthy (requested_target pl) = false →
  resolve room h (Str "redo") pl = (h, pl).
Proof. intros Ht. unfold resolve. simpl. by rewrite Ht. Qed.

Lemma resolve_other room h ty pl :
  is_str ty "undo" = false → is_str ty "redo" = false →
  resolve room h ty pl = (h, pl).
Proof.
  intros H1 H2. unfold resolve. rewrite H1, H2.
  by repeat destruct (is_str ty _).
Qed.

Lemma resolve_payload_kept room h ty pl :
  (is_str ty "undo" = true → truthy (requested_target pl) = true) →
  (resolve room h ty pl).2 = pl.
Proof.
  intros Hu. unfold resolve.
  destruct (is_str ty "undo"); [rewrite Hu by done|];
    repeat match goal with
           | |- context [match ?x with _ => _ end] => destruct x
           end; done.
Qed.

(** ** A flag assignment seen through a log *)

Lemma deref_alter_miss h ls f l :
  (∀ j, ls !! j ≠ Some l) → deref (alter f l h) ls = deref h ls.
Proof.
  unfold deref. induction ls as [|l' ls IH]; intros Hm; [done|].
  csimpl. rewrite list_lookup_alter_ne.
  - rewrite IH; [done|]. intros j. apply (Hm (S j)).
  - intros ->. by apply (Hm 0).
Qed.

Lemma deref_alter_hit h ls f l i o :
  (∀ j l', ls !! j = Some l' → l' < length h) →
  ls !! i = Some l → (∀ j, ls !! j = Some l → j = i) → h !! l = Some o →
  deref (alter f l h) ls = <[i := f o]> (deref h ls).
Proof.
  intros Hb Hi Huniq Ho. apply list_eq. intros j.
  rewrite deref_lookup by (intros ??; rewrite length_alter; eauto).
  destruct (decide (i = j)) as [->|Hne].
  - rewrite list_lookup_insert_eq.
    + by rewrite Hi; simpl; rewrite list_lookup_alter_eq, Ho.
    + rewrite deref_length by done. by eapply lookup_lt_Some.
  - rewrite list_lookup_insert_ne by done. rewrite deref_lookup by done.
    destruct (ls !! j) as [l'|] eqn:E; [|done]. simpl.
    rewrite list_lookup_alter_ne; [done|]. intros ->. by apply Hne, eq_sym, Huniq.
Qed.

(** Where a reference sits: in one room, at one position. *)
Lemma wf_position m rid i l :
  wf m → ops (room_of m rid) !! i = Some l →
  (∀ j, ops (room_of m rid) !! j = Some l → j = i) ∧
  (∀ rid' j, rid' ≠ rid → ops (room_of m rid') !! j ≠ Some l).
Proof.
  intros Hwf Hi.
  assert (∀ r j, ops (room_of m r) !! j = Some l → r = rid ∧ j = i) as Hown.
  { intros r j Hj. unfold room_of in Hi, Hj.
    destruct (aget rid (rooms m)) as [r0|] eqn:E0; [|done].
    destruct (aget r (rooms m)) as [r1|] eqn:E1; [|done].
    simpl in *. by destruct (wf_owner m Hwf r r1 j rid r0 i l). }
  split.
  - intros j Hj. by destruct (Hown rid j Hj).
  - intros rid' j Hne Hj. by destruct (Hown rid' j Hj).
Qed.

(** The logs after the flag of the object at position [i] of room [rid] is
    assigned. *)
Lemma log_alter_hit m rid i l o b :
  wf m → ops (room_of m rid) !! i = Some l → heap m !! l = Some o →
  deref (alter (set_active b) l (heap m)) (ops (room_of m rid))
  = <[i := set_active b o]> (log m rid).
Proof.
  intros Hwf Hi Ho. destruct (wf_position m rid i l Hwf Hi) as [Hu _].
  apply deref_alter_hit; auto.
  intros j l'. apply room_wf_bound with rid. by apply room_of_wf.
Qed.

Lemma log_alter_miss m rid rid' i l b :
  wf m → ops (room_of m rid) !! i = Some l → rid' ≠ rid →
  deref (alter (set_active b) l (heap m)) (ops (room_of m rid')) = log m rid'.
Proof.
  intros Hwf Hi Hne. destruct (wf_position m rid i l Hwf Hi) as [_ Ho].
  apply deref_alter_miss. intros j. by apply Ho.
Qed.

(** ** The scan and the most recent active stroke *)

Lemma filter_nil_all {A} (P : A → Prop) `{!∀ x, Decision (P x)} (l : list A) :
  (∀ x, x ∈ l → ¬ P x) → filter P l = [].
Proof.
  induction l as [|x l IH]; intros Hall; [done|].
  rewrite filter_cons_False by (apply Hall; left).
  apply IH. intros y Hy. apply Hall. by right.
Qed.

Lemma newest_active_stroke_at (lg : list Op) i t :
  lg !! i = Some t → active_stroke t = true →
  (∀ j o, i < j → lg !! j = Some o → active_stroke o = false) →
  newest_active_stroke lg = Some t.
Proof.
  intros Hi Ht Hafter. unfold newest_active_stroke.
  rewrite <- (take_drop_middle lg i t Hi).
  rewrite filter_app, filter_cons, decide_True by done.
  assert (filter (λ o, active_stroke o = true) (drop (S i) lg) = []) as ->.
  { apply filter_nil_all. intros o [j Hj]%list_elem_of_lookup.
    rewrite lookup_drop in Hj. rewrite (Hafter (S i + j) o); [done | lia | done]. }
  by rewrite last_snoc.
Qed.

Lemma newest_active_stroke_none (lg : list Op) :
  (∀ j o, lg !! j = Some o → active_stroke o = false) →
  newest_active_stroke lg = None.
Proof.
  intros Hall. unfold newest_active_stroke.
  assert (filter (λ o, active_stroke o = true) lg = []) as ->; [|done].
  apply filter_nil_all. intros o [j Hj]%list_elem_of_lookup.
  by rewrite (Hall j o).
Qed.

(** What the backward loop returns, in terms of the log. *)
Lemma scan_log m rid :
  wf m →
  match scan (heap m) (ops (room_of m rid)) (length (ops (room_of m rid))) with
  | Some (l, t) =>
      ∃ i, ops (room_of m rid) !! i = Some l ∧ heap m !! l = Some t ∧
           log m rid !! i = Some t ∧ newest_active_stroke (log m rid) = Some t
  | None => newest_active_stroke (log m rid) = None
  end.
Proof.
  intros Hwf.
  destruct (scan _ _ _) as [[l t]|] eqn:E.
  - apply scan_Some in E as (i & Hi & Hl & Ho & Ha & Hlast).
    assert (log m rid !! i = Some t) as Hlog.
    { rewrite log_lookup by done. rewrite Hl. done. }
    exists i. split_and!; auto.
    apply newest_active_stroke_at with i; auto.
    intros j o Hj. rewrite log_lookup by done.
    destruct (ops (room_of m rid) !! j) as [l'|] eqn:E'; [|done]. simpl.
    intros Ho'. apply (Hlast j l' o); auto. split; [done|].
    by eapply lookup_lt_Some.
  - apply newest_active_stroke_none. intros j o. rewrite log_lookup by done.
    destruct (ops (room_of m rid) !! j) as [l'|] eqn:E'; [|done]. simpl.
    intros Ho'. apply (scan_None _ _ _ E j l' o); auto.
    by eapply lookup_lt_Some.
Qed.

Lemma newest_active_stroke_inv (lg : list Op) t :
  newest_active_stroke lg = Some t →
  ∃ i, lg !! i = Some t ∧ active_stroke t = true ∧
       ∀ j o, i < j → lg !! j = Some o → active_stroke o = false.
Proof.
  unfold newest_active_stroke.
  induction lg as [|x lg IH] using rev_ind; [done|].
  rewrite filter_app, filter_cons, filter_nil.
  destruct (decide (active_stroke x = true)) as [Hx|Hx].
  - rewrite last_snoc. intros [= ->]. exists (length lg). split_and!; auto.
    + by rewrite lookup_app_r, Nat.sub_diag by lia.
    + intros j o Hj Ho. apply lookup_lt_Some in Ho.
      rewrite length_app in Ho. simpl in Ho. lia.
  - rewrite app_nil_r. intros (i & Hi & Ht & Hlast)%IH.
    exists i. split_and!; auto.
    + by apply lookup_app_l_Some.
    + intros j o Hj [[_ Ho]|[_ <-]]%lookup_snoc_Some; [eauto|].
      by destruct (active_stroke x).
Qed.

(** The most recent active stroke carries the highest sequence number
    among the active strokes of the log. *)
Lemma newest_active_stroke_max m rid t :
  wf m → newest_active_stroke (log m rid) = Some t →
  log m rid !! pred (seq t) = Some t ∧ active_stroke t = true ∧
  ∀ o, o ∈ log m rid → active_stroke o = true → seq o ≤ seq t.
Proof.
  intros Hwf (i & Hi & Ht & Hlast)%newest_active_stroke_inv.
  destruct (log_seq_opID m rid i t Hwf Hi) as [Hseq _].
  rewrite Hseq. simpl. split_and!; auto.
  intros o [j Hj]%list_elem_of_lookup Ho.
  destruct (log_seq_opID m rid j o Hwf Hj) as [-> _].
  destruct (decide (j ≤ i)); [lia|].
  rewrite (Hlast j o) in Ho; [done | lia | done].
Qed.

(** ** The effect of one [appendOp] on the logs *)

(** When the store is left as it was, every log is as it was, but for the
    stamped operation at the end of the room named by the call. *)
Lemma appendOp_log_unchanged m rid raw s now :
  wf m → resolved_heap m rid raw = heap m →
  ∀ rid', log (appendOp m rid raw s now).1 rid'
          = log m rid' ++ (if decide (rid = rid') then [stamped_op m rid raw s now] else []).
Proof. intros Hwf Hh rid'. rewrite appendOp_log by done. by rewrite Hh. Qed.

(** When the flag of the object at position [i] of the room is assigned. *)
Lemma appendOp_log_flag m rid raw s now i l o b :
  wf m → ops (room_of m rid) !! i = Some l → heap m !! l = Some o →
  resolved_heap m rid raw = alter (set_active b) l (heap m) →
  log (appendOp m rid raw s now).1 rid
  = <[i := set_active b o]> (log m rid) ++ [stamped_op m rid raw s now] ∧
  ∀ rid', rid' ≠ rid → log (appendOp m rid raw s now).1 rid' = log m rid'.
Proof.
  intros Hwf Hi Ho Hh. split.
  - rewrite appendOp_log, Hh, decide_True by done.
    by rewrite (log_alter_hit m rid i l o b).
  - intros rid' Hne. rewrite appendOp_log, Hh, decide_False, app_nil_r by done.
    by apply (log_alter_miss m rid rid' i l b).
Qed.

(** An undo without a target while some stroke is active. *)
Lemma appendOp_undo_newest m rid raw s now t :
  wf m → assoc "type" raw = Str "undo" →
  truthy (requested_target (raw_payload raw)) = false →
  newest_active_stroke (log m rid) = Some t →
  ∃ u, log (appendOp m rid raw s now).1 rid
       = <[pred (seq t) := set_active false t]> (log m rid) ++ [u] ∧
       heap (appendOp m rid raw s now).1 !! (appendOp m rid raw s now).2 = Some u ∧
       type u = Str "undo" ∧ active u = true ∧
       payload u = Obj [("targetOpID", Str (opID t))] ∧
       ∀ rid', rid' ≠ rid → log (appendOp m rid raw s now).1 rid' = log m rid'.
Proof.
  intros Hwf Hty Hno Hnew.
  pose proof (scan_log m rid Hwf) as Hscan.
  pose proof (resolve_undo_implicit (room_of m rid) (heap m) _ Hno) as Hres.
  destruct (scan _ _ _) as [[l t']|]; [|congruence].
  destruct Hscan as (i & Hi & Ho & Hlog & Hnew'). simplify_eq.
  destruct (log_seq_opID m rid i t Hwf Hlog) as [Hseq _].
  exists (stamped_op m rid raw s now).
  assert (resolved_heap m rid raw = alter (set_active false) l (heap m)) as Hh.
  { unfold resolved_heap. by rewrite Hty, Hres. }
  destruct (appendOp_log_flag m rid raw s now i l t false Hwf Hi Ho Hh) as [H1 H2].
  rewrite Hseq. simpl. split_and!; auto using appendOp_stamped.
  unfold stamped_op. simpl. by rewrite Hty, Hres.
Qed.

(** ** C2: an undo without a target takes the most recent active stroke *)

(** C2. In a room whose log has an active stroke, [appendOp] of an undo with
    no [targetOpID] clears the [active] flag of the active stroke [t] with
    the highest [seq] and of nothing else, and stores the undo with
    [payload.targetOpID = t.opID]; a second such undo then takes the active
    stroke [t2] with the highest [seq] below that of [t]. *)
Theorem C2_undo_most_recent (cs : list call) (roomId : RoomId)
    (raw1 raw2 : list (string * value)) (s1 s2 : string) (now1 now2 : Z) (t : Op) :
  assoc "type" raw1 = Str "undo" →
  truthy (requested_target (raw_payload raw1)) = false →
  assoc "type" raw2 = Str "undo" →
  truthy (requested_target (raw_payload raw2)) = false →
  newest_active_stroke (log (run cs) roomId) = Some t →
  let m := run cs in
  let m1 := (appendOp m roomId raw1 s1 now1).1 in
  let m2 := (appendOp m1 roomId raw2 s2 now2).1 in
  (t ∈ log m roomId ∧ active_stroke t = true ∧
   ∀ o, o ∈ log m roomId → active_stroke o = true → seq o ≤ seq t) ∧
  (∃ u1, log m1 roomId = <[pred (seq t) := set_active false t]> (log m roomId) ++ [u1] ∧
         type u1 = Str "undo" ∧
         payload u1 = Obj [("targetOpID", Str (opID t))]) ∧
  (∀ t2, newest_active_stroke (log m1 roomId) = Some t2 →
     (t2 ∈ log m roomId ∧ active_stroke t2 = true ∧ seq t2 < seq t ∧
      ∀ o, o ∈ log m roomId → active_stroke o = true → seq o < seq t →
           seq o ≤ seq t2) ∧
     ∃ u2, log m2 roomId = <[pred (seq t2) := set_active false t2]> (log m1 roomId) ++ [u2] ∧
           type u2 = Str "undo" ∧
           payload u2 = Obj [("targetOpID", Str (opID t2))]).
Proof.
  intros Hty1 Hno1 Hty2 Hno2 Hnew m m1 m2.
  assert (wf m) as Hwf by apply wf_run.
  assert (wf m1) as Hwf1 by by apply wf_appendOp.
  destruct (newest_active_stroke_max m roomId t Hwf Hnew) as (Hat & Hact & Hmax).
  destruct (appendOp_undo_newest m roomId raw1 s1 now1 t Hwf Hty1 Hno1 Hnew)
    as (u1 & Hlog1 & _ & Hu1ty & _ & Hu1pl & _).
  fold m1 in Hlog1.
  split_and!.
  - by eapply list_elem_of_lookup_2.
  - done.
  - done.
  - by exists u1.
  - intros t2 Hnew2. split.
    + destruct (newest_active_stroke_inv _ _ Hnew2) as (i2 & Hi2 & Hact2 & Hlast2).
      destruct (newest_active_stroke_inv _ _ Hnew) as (i & Hi & _ & Hlast).
      destruct (log_seq_opID m roomId i t Hwf Hi) as [Hseq _].
      destruct (log_seq_opID m1 roomId i2 t2 Hwf1 Hi2) as [Hseq2 _].
      assert (length (log m roomId) = length (<[i := set_active false t]> (log m roomId)))
        as Hlen by by rewrite length_insert.
      rewrite Hlog1, Hseq in Hi2. simpl in Hi2.
      apply lookup_app_Some in Hi2 as [Hi2|[_ Hi2]]; cycle 1.
      { apply list_lookup_singleton_Some in Hi2 as [_ <-].
        unfold active_stroke in Hact2. by rewrite Hu1ty in Hact2. }
      destruct (decide (i = i2)) as [<-|Hne].
      { rewrite list_lookup_insert_eq in Hi2 by by eapply lookup_lt_Some.
        injection Hi2 as <-. unfold active_stroke in Hact2. simpl in Hact2.
        by rewrite andb_false_r in Hact2. }
      rewrite list_lookup_insert_ne in Hi2 by done.
      assert (i2 < i) as Hlt.
      { destruct (decide (i2 < i)); [done|].
        rewrite (Hlast i2 t2) in Hact2; [done | lia | done]. }
      split_and!; [by eapply list_elem_of_lookup_2 | done | lia |].
      intros o [j Hj]%list_elem_of_lookup Ho Hlo.
      destruct (log_seq_opID m roomId j o Hwf Hj) as [Hseqo _].
      rewrite Hseq2, Hseqo. rewrite Hseqo, Hseq in Hlo.
      destruct (decide (j ≤ i2)); [lia|].
      rewrite (Hlast2 j o) in Ho; [done | lia |].
      rewrite Hlog1, Hseq. simpl. apply lookup_app_l_Some.
      rewrite list_lookup_insert_ne by lia. done.
    + destruct (appendOp_undo_newest m1 roomId raw2 s2 now2 t2 Hwf1 Hty2 Hno2 Hnew2)
        as (u2 & Hlog2 & _ & Hu2ty & _ & Hu2pl & _).
      by exists u2.
Qed.

(** ** Which flag an [appendOp] assigns, and why *)

Lemma is_str_true v lit : is_str v lit = true → v = Str lit.
Proof.
  destruct v; simpl; try done. by intros ->%String.eqb_eq.
Qed.

(** A reference found in the index of a room is a reference of its log, to
    the operation that carries the identifier. *)
Lemma opMap_get_wf m rid tgt l :
  wf m → opMap_get (opMap (room_of m rid)) tgt = Some l →
  ∃ i o, ops (room_of m rid) !! i = Some l ∧ heap m !! l = Some o ∧
         tgt = Str (opID o) ∧ opID o = mk_opID rid (S i).
Proof.
  intros Hwf Hg. destruct tgt as [| | | | |k|]; simpl in Hg; try done.
  pose proof (room_of_wf m rid Hwf) as Hr.
  apply (wf_map _ _ _ Hr) in Hg as (i & Hi & ->).
  destruct (wf_ops _ _ _ Hr i l Hi) as (o & Ho & _ & Hid).
  exists i, o. by rewrite Hid.
Qed.

Lemma resolved_heap_cases m rid raw :
  wf m →
  resolved_heap m rid raw = heap m ∨
  ∃ i l o b, ops (room_of m rid) !! i = Some l ∧ heap m !! l = Some o ∧
             resolved_heap m rid raw = alter (set_active b) l (heap m) ∧
             flag_cause raw o b.
Proof.
  intros Hwf. unfold resolved_heap.
  destruct (is_str (assoc "type" raw) "undo") eqn:Hu;
    [|destruct (is_str (assoc "type" raw) "redo") eqn:Hr].
  - apply is_str_true in Hu.
    destruct (truthy (requested_target (raw_payload raw))) eqn:Ht.
    + rewrite Hu, resolve_undo_explicit by done.
      destruct (opMap_get _ _) as [l|] eqn:Hg; [|by left]. right.
      apply opMap_get_wf in Hg as (i & o & Hi & Ho & Htgt & _); [|done].
      exists i, l, o, false. split_and!; auto. by apply cause_undo_named.
    + rewrite Hu, resolve_undo_implicit by done.
      pose proof (scan_log m rid Hwf) as Hscan.
      destruct (scan _ _ _) as [[l t]|]; [|by left]. right.
      destruct Hscan as (i & Hi & Ho & _ & (_ & _ & Hact & _)%newest_active_stroke_inv).
      exists i, l, t, false. split_and!; auto. by apply cause_undo_newest.
  - apply is_str_true in Hr.
    destruct (truthy (requested_target (raw_payload raw))) eqn:Ht.
    + rewrite Hr, resolve_redo_explicit by done.
      destruct (opMap_get _ _) as [l|] eqn:Hg; [|by left]. right.
      apply opMap_get_wf in Hg as (i & o & Hi & Ho & Htgt & _); [|done].
      exists i, l, o, true. split_and!; auto. by apply cause_redo_named.
    + rewrite Hr, resolve_redo_implicit by done. by left.
  - rewrite resolve_other by done. by left.
Qed.

(** The effect of [appendOp] on the logs of all rooms, in two cases. *)
Lemma appendOp_effect m rid raw s now :
  wf m →
  (∀ rid', log (appendOp m rid raw s now).1 rid'
           = log m rid' ++ (if decide (rid = rid') then [stamped_op m rid raw s now] else []))
  ∨
  (∃ i o b, log m rid !! i = Some o ∧ flag_cause raw o b ∧
     log (appendOp m rid raw s now).1 rid
     = <[i := set_active b o]> (log m rid) ++ [stamped_op m rid raw s now] ∧
     ∀ rid', rid' ≠ rid → log (appendOp m rid raw s now).1 rid' = log m rid').
Proof.
  intros Hwf.
  destruct (resolved_heap_cases m rid raw Hwf) as [Hh|(i & l & o & b & Hi & Ho & Hh & Hc)].
  - left. by apply appendOp_log_unchanged.
  - right. exists i, o, b.
    destruct (appendOp_log_flag m rid raw s now i l o b Hwf Hi Ho Hh) as [H1 H2].
    split_and!; auto. rewrite log_lookup by done. by rewrite Hi.
Qed.

Lemma set_active_id o : set_active (active o) o = o.
Proof. by destruct o. Qed.

(** Every logged operation is still there after [appendOp], with all its
    fields but possibly [active]. *)
Lemma appendOp_keeps m rid raw s now rid' j o :
  wf m → log m rid' !! j = Some o →
  ∃ b, log (appendOp m rid raw s now).1 rid' !! j = Some (set_active b o).
Proof.
  intros Hwf Hj.
  destruct (appendOp_effect m rid raw s now Hwf) as [Hsame|(i & t & b & Hi & _ & H1 & H2)].
  - exists (active o). rewrite Hsame, set_active_id. by apply lookup_app_l_Some.
  - destruct (decide (rid' = rid)) as [->|Hne].
    + rewrite H1. destruct (decide (i = j)) as [->|Hij].
      * exists b. apply lookup_app_l_Some.
        rewrite list_lookup_insert_eq by by eapply lookup_lt_Some. congruence.
      * exists (active o). rewrite set_active_id. apply lookup_app_l_Some.
        by rewrite list_lookup_insert_ne.
    + exists (active o). by rewrite H2, set_active_id.
Qed.

(** A logged operation that [appendOp] changes is in the room named by the
    call, at the one position whose flag is assigned. *)
Lemma appendOp_changed m rid raw s now :
  wf m →
  ∃ i0, ∀ rid' j o,
    log m rid' !! j = Some o →
    log (appendOp m rid raw s now).1 rid' !! j ≠ Some o →
    rid' = rid ∧ j = i0 ∧ flag_cause raw o (negb (active o)).
Proof.
  intros Hwf.
  destruct (appendOp_effect m rid raw s now Hwf) as [Hsame|(i & t & b & Hi & Hc & H1 & H2)].
  - exists 0. intros rid' j o Hj Hch. exfalso. apply Hch.
    rewrite Hsame. by apply lookup_app_l_Some.
  - exists i. intros rid' j o Hj Hch.
    destruct (decide (rid' = rid)) as [->|Hne]; [|by rewrite H2 in Hch].
    destruct (decide (i = j)) as [->|Hij].
    + split_and!; auto. assert (t = o) as -> by congruence.
      destruct (decide (b = active o)) as [->|Hb].
      * exfalso. apply Hch. rewrite H1, set_active_id.
        apply lookup_app_l_Some. rewrite list_insert_id; done.
      * by replace (negb (active o)) with b by by destruct b, (active o).
    + exfalso. apply Hch. rewrite H1. apply lookup_app_l_Some.
      by rewrite list_lookup_insert_ne.
Qed.

(** The stamped operation is pushed at the end of the log of its room. *)
Lemma appendOp_pushed m rid raw s now :
  wf m →
  last (log (appendOp m rid raw s now).1 rid) = Some (stamped_op m rid raw s now) ∧
  length (log (appendOp m rid raw s now).1 rid) = S (length (log m rid)).
Proof.
  intros Hwf.
  destruct (appendOp_effect m rid raw s now Hwf) as [Hsame|(i & t & b & _ & _ & H1 & _)].
  - rewrite Hsame, decide_True by done. rewrite last_snoc, length_app. simpl.
    split; [done | lia].
  - rewrite H1, last_snoc, length_app, length_insert. simpl. split; [done | lia].
Qed.

(** ** C3: what one [appendOp] may change *)

(** C3 (as the code has it). One [appendOp] call pushes the stamped
    operation, with [active = true] and the type of the raw operation, at
    the end of the log of its room; every operation logged before keeps all
    its fields but possibly [active]; at most one of them, at one position
    [i0] of the room named by the call, changes, and it changes for one of
    three causes: an undo without target clears the flag of an active
    stroke; an undo, or a redo, that names a [targetOpID] assigns the flag of
    the operation carrying that identifier, whatever its type.  So an
    operation that is not a stroke changes only when its own identifier is
    named. *)
Theorem C3_frame (cs : list call) (roomId : RoomId)
    (opRaw : list (string * value)) (socketId : string) (now : Z) :
  let m := run cs in
  let m' := (appendOp m roomId opRaw socketId now).1 in
  (∃ u, last (log m' roomId) = Some u ∧
        length (log m' roomId) = S (length (log m roomId)) ∧
        type u = assoc "type" opRaw ∧ active u = true) ∧
  (∀ rid j o, log m rid !! j = Some o →
              ∃ b, log m' rid !! j = Some (set_active b o)) ∧
  (∃ i0, ∀ rid j o,
      log m rid !! j = Some o → log m' rid !! j ≠ Some o →
      rid = roomId ∧ j = i0 ∧ flag_cause opRaw o (negb (active o)) ∧
      (is_str (type o) "stroke" = false →
       requested_target (raw_payload opRaw) = Str (opID o))).
Proof.
  intros m m'. assert (wf m) as Hwf by apply wf_run. split_and!.
  - exists (stamped_op m roomId opRaw socketId now).
    destruct (appendOp_pushed m roomId opRaw socketId now Hwf) as [H1 H2].
    by split_and!.
  - intros rid j o. by apply appendOp_keeps.
  - destruct (appendOp_changed m roomId opRaw socketId now Hwf) as [i0 Hch].
    exists i0. intros rid j o Hj Hne.
    destruct (Hch rid j o Hj Hne) as (-> & -> & Hc). split_and!; auto.
    intros Hns. destruct Hc as [_ _ Hact| |]; auto.
    unfold active_stroke in Hact. by rewrite Hns in Hact.
Qed.

(** C3, the claim as stated fails: an undo that names the identifier of a
    logged undo clears the flag of that undo. *)
Lemma C3_counterexample :
  ∃ o,
    log (run [AppendOp "room1" (undo_raw None) "a" 1%Z]) "room1" !! 0 = Some o ∧
    type o = Str "undo" ∧ active o = true ∧
    log (appendOp (run [AppendOp "room1" (undo_raw None) "a" 1%Z]) "room1"
           (undo_raw (Some "room1::000001")) "b" 2%Z).1 "room1" !! 0
    = Some (set_active false o).
Proof. eexists. split_and!; reflexivity. Qed.

(** ** C4: the target stored with an undo or a redo *)

Lemma mk_opID_truthy rid n : truthy (Str (mk_opID rid n)) = true.
Proof. unfold mk_opID. by destruct (RoomId_to_string rid). Qed.

Lemma requested_target_truthy pl :
  truthy (requested_target pl) = true → truthy (get_prop pl "targetOpID") = true.
Proof.
  unfold requested_target, js_and. destruct (truthy pl) eqn:E; [done|congruence].
Qed.

Lemma scan_None_newest m rid :
  wf m → newest_active_stroke (log m rid) = None →
  scan (heap m) (ops (room_of m rid)) (length (ops (room_of m rid))) = None.
Proof.
  intros Hwf Hn. pose proof (scan_log m rid Hwf) as Hscan.
  destruct (scan _ _ _) as [[l t]|]; [|done].
  destruct Hscan as (i & _ & _ & _ & Hnew). congruence.
Qed.

(** C4 (as the code has it). The operation stored by [appendOp] for an undo
    that names a target keeps the payload of the request, whose
    [targetOpID] is truthy; for an undo that names none while the log has an
    active stroke, the stored payload is [{ targetOpID }] with the [opID] of
    the most recent active stroke.  An undo that names no target while no
    stroke is active, and every redo, is stored with the payload of the
    request, so without a target when the request has none. *)
Theorem C4_stored_target (cs : list call) (roomId : RoomId)
    (opRaw : list (string * value)) (socketId : string) (now : Z) :
  let m := run cs in
  let m' := (appendOp m roomId opRaw socketId now).1 in
  ∃ u, last (log m' roomId) = Some u ∧
    (assoc "type" opRaw = Str "undo" →
     truthy (requested_target (raw_payload opRaw)) = true →
     payload u = raw_payload opRaw ∧
     get_prop (payload u) "targetOpID" = requested_target (raw_payload opRaw) ∧
     truthy (get_prop (payload u) "targetOpID") = true) ∧
    (assoc "type" opRaw = Str "undo" →
     truthy (requested_target (raw_payload opRaw)) = false →
     ∀ t, newest_active_stroke (log m roomId) = Some t →
          payload u = Obj [("targetOpID", Str (opID t))] ∧
          get_prop (payload u) "targetOpID" = Str (opID t) ∧
          truthy (get_prop (payload u) "targetOpID") = true) ∧
    (assoc "type" opRaw = Str "undo" →
     truthy (requested_target (raw_payload opRaw)) = false →
     newest_active_stroke (log m roomId) = None →
     payload u = raw_payload opRaw ∧ truthy (requested_target (payload u)) = false) ∧
    (assoc "type" opRaw = Str "redo" → payload u = raw_payload opRaw).
Proof.
  intros m m'. assert (wf m) as Hwf by apply wf_run.
  exists (stamped_op m roomId opRaw socketId now).
  split; [apply appendOp_pushed; done|].
  unfold stamped_op. simpl. split_and!.
  - intros Hty Ht. rewrite Hty, resolve_undo_explicit by done. simpl.
    assert (get_prop (raw_payload opRaw) "targetOpID"
            = requested_target (raw_payload opRaw)) as Hreq.
    { revert Ht. unfold requested_target, js_and.
      destruct (truthy (raw_payload opRaw)) eqn:E; [done | congruence]. }
    split_and!; [done | done | by apply requested_target_truthy].
  - intros Hty Ht t Hnew. rewrite Hty, resolve_undo_implicit by done.
    pose proof (scan_log m roomId Hwf) as Hscan.
    destruct (scan _ _ _) as [[l t']|].
    + destruct Hscan as (i & _ & _ & Hlog & Hnew').
      assert (t' = t) as -> by congruence.
      destruct (log_seq_opID m roomId i t Hwf Hlog) as [_ Hid].
      simpl. split_and!; [done | done |]. rewrite Hid. apply mk_opID_truthy.
    + congruence.
  - intros Hty Ht Hnone. rewrite Hty, resolve_undo_implicit by done.
    rewrite scan_None_newest by done. done.
  - intros Hty. rewrite Hty. apply resolve_payload_kept. done.
Qed.

(** C4, the claim as stated fails: the undo the client sends,
    [{ type: 'undo', payload: {} }], appended to a log with no active stroke,
    is stored without a target; so is a redo without one. *)
Lemma C4_counterexample :
  ∃ o, o ∈ log (run [AppendOp "room1" (undo_raw None) "a" 1%Z]) "room1" ∧
       type o = Str "undo" ∧ get_prop (payload o) "targetOpID" = Undefined.
Proof. eexists. split_and!; [apply list_elem_of_here | reflexivity..]. Qed.

(** ** C5: the types that enter a log *)

Lemma ensure_log m rid rid' : log (_ensure m rid) rid' = log m rid'.
Proof. unfold log. by rewrite ensure_room_of, ensure_heap. Qed.

Lemma addClient_room_of m rid s u c rid' :
  room_of (addClient m rid s u c).1 rid'
  = if decide (rid = rid')
    then with_clients
           (aset s {| ci_clientId := s; username := or_default u (Str "Anon");
                      color := or_default c (Str "#000") |}
                 (clients (room_of m rid)))
           (room_of m rid)
    else room_of m rid'.
Proof.
  rewrite addClient_eq. unfold room_of at 1. simpl. rewrite aget_aset.
  case_decide; subst; simpl; [done|].
  fold (room_of (_ensure m rid) rid'). by rewrite ensure_room_of.
Qed.

Lemma addClient_heap m rid s u c : heap (addClient m rid s u c).1 = heap m.
Proof. by rewrite addClient_eq. Qed.

Lemma addClient_log m rid s u c rid' : log (addClient m rid s u c).1 rid' = log m rid'.
Proof.
  unfold log. rewrite addClient_room_of, addClient_heap. by case_decide; subst.
Qed.

Lemma removeClientBySocket_log m s rid :
  log (removeClientBySocket m s).1 rid = log m rid.
Proof.
  rewrite removeClientBySocket_eq. unfold log, room_of. simpl.
  rewrite aget_fmap_rooms. by destruct (aget rid (rooms m)).
Qed.




(** The [op] handler on a message with a truthy [type]: the room named by
    the message, and the manager and the broadcast it leaves. *)
Lemma handle_op_logged m sock raw now :
  wf m → truthy (assoc "type" raw) = true →
  let rid := js_or (assoc "roomId" raw) (Str "room1") in
  let r := room_key m rid in
  handle m sock (OpMsg (Obj raw) now)
  = if template_throws rid then None
    else Some ((appendOp m r raw sock now).1,
               [OpBroadcast r (stamped_op m r raw sock now)]).
Proof.
  intros Hwf Hty rid r. simpl. rewrite Hty. simpl. fold rid. fold r.
  destruct (template_throws rid); [done|].
  destruct (appendOp m r raw sock now) as [m1 l] eqn:Ea.
  pose proof (appendOp_stamped m r raw sock now) as Hs.
  rewrite Ea in Hs. simpl in Hs. simpl. by rewrite Hs.
Qed.



(** ** C6: an undo that finds nothing *)


(** ** C7: redo *)

(** The index of a room, in terms of its log. *)
Lemma lookup_op_log m rid k o :
  wf m →
  lookup_op m rid k = Some o ↔ ∃ i, log m rid !! i = Some o ∧ k = opID o.
Proof.
  intros Hwf. pose proof (room_of_wf m rid Hwf) as Hr. unfold lookup_op. split.
  - destruct (opMap (room_of m rid) !! k) as [l|] eqn:E; [|done]. simpl.
    intros Ho. apply (wf_map _ _ _ Hr) in E as (i & Hi & ->).
    destruct (wf_ops _ _ _ Hr i l Hi) as (o' & Ho' & _ & Hid).
    assert (o' = o) as -> by congruence.
    exists i. rewrite log_lookup by done. rewrite Hi. by split.
  - intros (i & Hi & ->). rewrite log_lookup in Hi by done.
    destruct (ops (room_of m rid) !! i) as [l|] eqn:E; [|done]. simpl in Hi.
    destruct (wf_ops _ _ _ Hr i l E) as (o' & Ho' & _ & Hid).
    assert (o' = o) as -> by congruence.
    assert (opMap (room_of m rid) !! opID o = Some l) as ->; [|done].
    apply (wf_map _ _ _ Hr). exists i. by rewrite Hid.
Qed.

(** C7. A redo that names a [targetOpID] found in the index of the room
    leaves that operation with [active = true] and its other fields as they
    were, and changes nothing else; a redo that names no target changes no
    flag at all (no search for the most recently undone stroke); in both
    cases the redo itself is appended. *)
Theorem C7_redo (cs : list call) (roomId : RoomId)
    (opRaw : list (string * value)) (socketId : string) (now : Z) :
  assoc "type" opRaw = Str "redo" →
  let m := run cs in
  let m' := (appendOp m roomId opRaw socketId now).1 in
  (∀ k o, requested_target (raw_payload opRaw) = Str k →
          lookup_op m roomId k = Some o →
          let o' := {| seq := seq o; opID := opID o; clientId := clientId o;
                       type := type o; payload := payload o;
                       timestamp := timestamp o; active := true |} in
          lookup_op m' roomId k = Some o' ∧
          ∃ i u, log m roomId !! i = Some o ∧
                 log m' roomId = <[i := o']> (log m roomId) ++ [u] ∧
                 log m' roomId !! i = Some o' ∧
                 type u = Str "redo" ∧ active u = true ∧
                 ∀ rid, rid ≠ roomId → log m' rid = log m rid) ∧
  (truthy (requested_target (raw_payload opRaw)) = false →
   ∃ u, type u = Str "redo" ∧
        ∀ rid, log m' rid = log m rid ++ (if decide (roomId = rid) then [u] else [])).
Proof.
  intros Hty m m'. assert (wf m) as Hwf by apply wf_run.
  assert (wf m') as Hwf' by by apply wf_appendOp.
  split.
  - intros k o Hk Hlk o'. change o' with (set_active true o). clear o'.
    assert (H := Hlk). apply lookup_op_log in H as (i & Hi & ->); [|done].
    unfold lookup_op in Hlk.
    destruct (opMap (room_of m roomId) !! opID o) as [l|] eqn:Hmap; [|done].
    simpl in Hlk.
    destruct (log_seq_opID m roomId i o Hwf Hi) as [_ Hid].
    assert (ops (room_of m roomId) !! i = Some l) as Hops.
    { apply (wf_map _ _ _ (room_of_wf m roomId Hwf)) in Hmap as (i' & Hi' & E).
      rewrite Hid in E. apply mk_opID_inj in E as [_ [= ->]]. done. }
    assert (resolved_heap m roomId opRaw = alter (set_active true) l (heap m)) as Hh.
    { unfold resolved_heap. rewrite Hty, resolve_redo_explicit.
      - rewrite Hk. simpl. by rewrite Hmap.
      - rewrite Hk, Hid. apply mk_opID_truthy. }
    destruct (appendOp_log_flag m roomId opRaw socketId now i l o true Hwf Hops Hlk Hh)
      as [H1 H2].
    split.
    + apply lookup_op_log; [done|]. exists i. split; [|done].
      fold m' in H1. rewrite H1. apply lookup_app_l_Some.
      apply list_lookup_insert_eq. by eapply lookup_lt_Some.
    + exists i, (stamped_op m roomId opRaw socketId now).
      split_and!; [done | done | | done | done | done].
      fold m' in H1. rewrite H1. apply lookup_app_l_Some.
      apply list_lookup_insert_eq. by eapply lookup_lt_Some.
  - intros Ht. exists (stamped_op m roomId opRaw socketId now). split; [done|].
    apply appendOp_log_unchanged; [done|]. unfold resolved_heap.
    by rewrite Hty, resolve_redo_implicit.
Qed.

(** ** C8: history *)

Lemma deref_drop h ls k :
  (∀ j l, ls !! j = Some l → l < length h) →
  deref h (drop k ls) = drop k (deref h ls).
Proof.
  intros Hb. apply list_eq. intros i.
  rewrite lookup_drop, !deref_lookup; [by rewrite lookup_drop|done|].
  intros j l. rewrite lookup_drop. apply Hb.
Qed.

(** C8. [getHistory(roomId, limit)] returns the last [min(limit, length)]
    operations of the log of the room, in log order, with 500 for an
    omitted limit; the entries are the logged objects themselves, so they
    are read with the flags they have at the time of the call.  The call
    changes neither the store nor any log. *)
Theorem C8_getHistory (cs : list call) (roomId : RoomId) (limit : option Z) :
  let m := run cs in
  let lim := default 500%Z limit in
  let m' := (getHistory m roomId limit).1 in
  let history := (getHistory m roomId limit).2 in
  deref (heap m') history
  = last_n (Z.to_nat (Z.min lim (Z.of_nat (length (log m roomId))))) (log m roomId) ∧
  history
  = last_n (Z.to_nat (Z.min lim (Z.of_nat (length (log m roomId)))))
           (ops (room_of m roomId)) ∧
  length history = Z.to_nat (Z.min lim (Z.of_nat (length (log m roomId)))) ∧
  heap m' = heap m ∧ (∀ rid, log m' rid = log m rid).
Proof.
  intros m lim m' history. assert (wf m) as Hwf by apply wf_run.
  pose proof (room_of_wf m roomId Hwf) as Hr.
  assert (∀ j l, ops (room_of m roomId) !! j = Some l → l < length (heap m)) as Hb.
  { intros j l. by apply room_wf_bound with roomId. }
  assert (length (log m roomId) = length (ops (room_of m roomId))) as Hlen.
  { by apply deref_length. }
  assert (m' = _ensure m roomId) as Hm' by apply getHistory_fst.
  assert (history = drop (Z.to_nat (Z.max 0 (Z.of_nat (length (ops (room_of m roomId))) - lim)))
                         (ops (room_of m roomId))) as Hhist.
  { unfold history, getHistory. rewrite ensure_get. simpl. unfold slice_from.
    by destruct limit. }
  assert (∀ ls : list nat, length ls = length (ops (room_of m roomId)) →
            drop (Z.to_nat (Z.max 0 (Z.of_nat (length (ops (room_of m roomId))) - lim))) ls
            = last_n (Z.to_nat (Z.min lim (Z.of_nat (length (log m roomId))))) ls) as Hk.
  { intros ls Hls. unfold last_n. rewrite Hlen, Hls.
    destruct (decide (lim < 0)%Z).
    - rewrite !drop_ge; [done | lia..].
    - f_equal. lia. }
  split_and!.
  - rewrite Hm', ensure_heap, Hhist. rewrite deref_drop by done.
    unfold last_n. rewrite Hlen. rewrite <- (deref_length (heap m) _ Hb) at 2.
    destruct (decide (lim < 0)%Z).
    + rewrite !drop_ge; [done | rewrite deref_length by done; lia..].
    + f_equal. rewrite deref_length by done. lia.
  - rewrite Hhist. by apply Hk.
  - rewrite Hhist, length_drop, Hlen. lia.
  - by rewrite Hm', ensure_heap.
  - intros rid. by rewrite Hm', ensure_log.
Qed.

(** C8 after an undo: the stroke logged first is returned with the flag
    the later undo gave it. *)
Lemma C8_witness :
  active <$> deref (heap (getHistory
                            (run [AppendOp "room1" stroke_raw "a" 10%Z;
                                  AppendOp "room1" (undo_raw None) "b" 20%Z])
                            "room1" None).1)
                   (getHistory
                      (run [AppendOp "room1" stroke_raw "a" 10%Z;
                            AppendOp "room1" (undo_raw None) "b" 20%Z])
                      "room1" None).2
  = [false; true].
Proof.
  destruct (C8_getHistory [AppendOp "room1" stroke_raw "a" 10%Z;
                           AppendOp "room1" (undo_raw None) "b" 20%Z]
              "room1" None) as [Hread _].
  cbv zeta in Hread. rewrite Hread. reflexivity.
Defined.

(** ** C9: leaving every room *)

Lemma removeClientBySocket_room_of m s rid :
  room_of (removeClientBySocket m s).1 rid = strip s (room_of m rid).
Proof.
  rewrite removeClientBySocket_eq. unfold room_of. simpl.
  rewrite aget_fmap_rooms. by destruct (aget rid (rooms m)).
Qed.

Lemma room_of_elem m rid r : wf m → (rid, r) ∈ rooms m → room_of m rid = r.
Proof.
  intros Hwf Hin. unfold room_of.
  by rewrite (elem_aget rid r (rooms m) (wf_keys m Hwf) Hin).
Qed.

(** C9. [removeClientBySocket(socketId)] deletes the client from the
    membership of every room and returns, in the order of the rooms, the
    identifiers of exactly the rooms that had it; it changes no other
    member, no log, no counter, no index and not the store.  For a client
    that is in no room it returns the empty list and leaves the manager as
    it is. *)
Theorem C9_removeClientBySocket (cs : list call) (socketId : string) :
  let m := run cs in
  let m' := (removeClientBySocket m socketId).1 in
  let roomsLeft := (removeClientBySocket m socketId).2 in
  roomsLeft = (filter (λ e, ahas socketId (clients e.2) = true) (rooms m)).*1 ∧
  NoDup roomsLeft ∧
  (∀ rid, rid ∈ roomsLeft ↔ ahas socketId (clients (room_of m rid)) = true) ∧
  (∀ rid, aget socketId (clients (room_of m' rid)) = None) ∧
  (∀ rid s, s ≠ socketId →
            aget s (clients (room_of m' rid)) = aget s (clients (room_of m rid))) ∧
  (∀ rid, ops (room_of m' rid) = ops (room_of m rid) ∧
          rseq (room_of m' rid) = rseq (room_of m rid) ∧
          opMap (room_of m' rid) = opMap (room_of m rid) ∧
          log m' rid = log m rid) ∧
  heap m' = heap m ∧ (rooms m').*1 = (rooms m).*1 ∧
  ((∀ rid, ahas socketId (clients (room_of m rid)) = false) →
   roomsLeft = [] ∧ m' = m).
Proof.
  intros m m' roomsLeft. assert (wf m) as Hwf by apply wf_run.
  assert (roomsLeft = (filter (λ e, ahas socketId (clients e.2) = true) (rooms m)).*1)
    as Hleft by (unfold roomsLeft; by rewrite removeClientBySocket_eq).
  split_and!.
  - done.
  - rewrite Hleft. eapply sublist_NoDup; [apply (wf_keys m Hwf)|].
    apply fmap_sublist, sublist_filter.
  - intros rid. rewrite Hleft, list_elem_of_fmap. split.
    + intros ([k r] & -> & [Hp Hin]%list_elem_of_filter). simpl in *.
      by rewrite (room_of_elem m k r).
    + intros Hhas. unfold room_of in Hhas.
      destruct (aget rid (rooms m)) as [r|] eqn:E; [|done]. simpl in Hhas.
      exists (rid, r). split; [done|]. apply list_elem_of_filter.
      split; [done | by apply aget_Some_elem].
  - intros rid. unfold m'. rewrite removeClientBySocket_room_of. simpl.
    apply aget_adelete_eq. apply (wf_clients _ _ _ (room_of_wf m rid Hwf)).
  - intros rid s Hne. unfold m'. rewrite removeClientBySocket_room_of. simpl.
    by apply aget_adelete_ne.
  - intros rid. unfold m'.
    rewrite removeClientBySocket_log, removeClientBySocket_room_of. done.
  - unfold m'. by rewrite removeClientBySocket_eq.
  - unfold m'. rewrite removeClientBySocket_eq. simpl. apply fmap_rooms_keys.
  - intros Hnone.
    assert (∀ e, e ∈ rooms m → ahas socketId (clients e.2) = false) as Hall.
    { intros [k r] Hin. simpl. rewrite <- (room_of_elem m k r Hwf Hin). apply Hnone. }
    split.
    + rewrite Hleft, filter_nil_all; [done|].
      intros e He. rewrite (Hall e He). done.
    + unfold m'. rewrite removeClientBySocket_eq. destruct m as [rs h]. simpl in *.
      f_equal. clear -Hall. induction rs as [|[k r] rs IH]; [done|].
      csimpl. rewrite IH by (intros e He; apply Hall; by right). f_equal. f_equal.
      specialize (Hall (k, r) (list_elem_of_here _ _)). simpl in Hall.
      unfold strip, with_clients. unfold ahas in Hall.
      destruct (aget socketId (clients r)) eqn:E; [done|].
      rewrite adelete_absent by done. by destruct r.
Qed.

(** ** C10: a target of another room *)





(** ** The theorems at concrete traces *)

(** C2 at the spec's example: with S1 and S2 active, the first undo takes
    S2 and the second takes S1. *)
Lemma C2_witness :
  newest_active_stroke (log (run two_strokes) "room1") = Some S2 ∧
  (∃ u1, log (appendOp (run two_strokes) "room1" (undo_raw None) "c" 30%Z).1 "room1"
         = <[1 := set_active false S2]> (log (run two_strokes) "room1") ++ [u1] ∧
         payload u1 = Obj [("targetOpID", Str "room1::000002")]) ∧
  (∃ u2, log (appendOp (appendOp (run two_strokes) "room1" (undo_raw None) "c" 30%Z).1
                "room1" (undo_raw None) "d" 40%Z).1 "room1"
         = <[0 := set_active false S1]>
             (log (appendOp (run two_strokes) "room1" (undo_raw None) "c" 30%Z).1 "room1")
           ++ [u2] ∧
         payload u2 = Obj [("targetOpID", Str "room1::000001")]).
Proof.
  destruct (C2_undo_most_recent two_strokes "room1" (undo_raw None) (undo_raw None)
              "c" "d" 30%Z 40%Z S2 eq_refl eq_refl eq_refl eq_refl eq_refl)
    as (_ & (u1 & H1 & _ & P1) & Hsecond).
  destruct (Hsecond S1 eq_refl) as (_ & u2 & H2 & _ & P2).
  split; [reflexivity|]. split; [by exists u1 | by exists u2].
Defined.


(** C7 at the spec's example: S2 undone, then redone by name. *)
Lemma C7_witness :
  lookup_op (run (two_strokes ++ [AppendOp "room1" (undo_raw None) "c" 30%Z]))
            "room1" "room1::000002" = Some S2_undone ∧
  active S2_undone = false ∧
  lookup_op (appendOp (run (two_strokes ++ [AppendOp "room1" (undo_raw None) "c" 30%Z]))
               "room1"
               [("type", Str "redo"); ("payload", Obj [("targetOpID", Str "room1::000002")])]
               "d" 40%Z).1
            "room1" "room1::000002" = Some S2 ∧
  active S2 = true.
Proof.
  split; [reflexivity|]. split; [reflexivity|]. split; [|reflexivity].
  destruct (C7_redo (two_strokes ++ [AppendOp "room1" (undo_raw None) "c" 30%Z]) "room1"
              [("type", Str "redo"); ("payload", Obj [("targetOpID", Str "room1::000002")])]
              "d" 40%Z eq_refl) as [Hnamed _].
  destruct (Hnamed "room1::000002" S2_undone eq_refl eq_refl) as [Hflag _].
  exact Hflag.
Defined.

(** C4 at the client's undo, [{ type: 'undo', payload: {} }], sent while S1
    and S2 are active: the stored undo names S2. *)
Lemma C4_witness :
  newest_active_stroke (log (run two_strokes) "room1") = Some S2 ∧
  opID S2 = "room1::000002" ∧
  ∃ u, last (log (appendOp (run two_strokes) "room1" (undo_raw None) "c" 30%Z).1 "room1")
       = Some u ∧
       payload u = Obj [("targetOpID", Str "room1::000002")].
Proof.
  split; [reflexivity|]. split; [reflexivity|].
  destruct (C4_stored_target two_strokes "room1" (undo_raw None) "c" 30%Z)
    as (u & Hlast & _ & Hnewest & _).
  exists u. split; [exact Hlast|].
  destruct (Hnewest eq_refl eq_refl S2 eq_refl) as [Hp _]. exact Hp.
Defined.


(** * Further properties of the room manager *)

(** ** Identifiers and the index *)



(** The index of a room finds exactly the operations of its log, each under
    its own identifier; the operation just stamped is found at once. *)
Theorem index_exact (cs : list call) (roomId : RoomId) :
  (∀ k o, lookup_op (run cs) roomId k = Some o ↔
          o ∈ log (run cs) roomId ∧ opID o = k) ∧
  ∀ opRaw socketId now u,
    heap (appendOp (run cs) roomId opRaw socketId now).1
      !! (appendOp (run cs) roomId opRaw socketId now).2 = Some u →
    lookup_op (appendOp (run cs) roomId opRaw socketId now).1 roomId (opID u) = Some u.
Proof.
  pose proof (wf_run cs) as Hwf. split.
  - intros k o. rewrite lookup_op_log by done. split.
    + intros (i & Hi & ->). split; [by eapply list_elem_of_lookup_2 | done].
    + intros [[i Hi]%list_elem_of_lookup <-]. by exists i.
  - intros opRaw socketId now u Hu. rewrite appendOp_stamped in Hu.
    injection Hu as <-.
    apply lookup_op_log; [by apply wf_appendOp|].
    destruct (appendOp_pushed (run cs) roomId opRaw socketId now Hwf) as [Hlast Hlen].
    apply last_Some in Hlast as [l' Hl']. exists (length l').
    split; [|done]. rewrite Hl'. by rewrite lookup_app_r, Nat.sub_diag by lia.
Qed.

(** ** The log only grows *)

Lemma exec_keeps m c rid j o :
  wf m → log m rid !! j = Some o →
  ∃ b, log (exec m c) rid !! j = Some (set_active b o).
Proof.
  intros Hwf Hj.
  destruct c as [r s u c|s|r|r lim|r raw s now]; simpl;
    rewrite ?getClients_fst, ?getHistory_fst, ?ensure_log, ?addClient_log,
      ?removeClientBySocket_log;
    try (exists (active o); by rewrite set_active_id).
  by apply appendOp_keeps.
Qed.

Lemma run_app cs cs' : run (cs ++ cs') = foldl exec (run cs) cs'.
Proof. unfold run. by rewrite foldl_app. Qed.

Lemma wf_foldl m cs : wf m → wf (foldl exec m cs).
Proof.
  revert m. induction cs as [|c cs IH]; intros m Hwf; [done|].
  simpl. by apply IH, wf_exec.
Qed.

Lemma foldl_keeps m cs rid j o :
  wf m → log m rid !! j = Some o →
  ∃ b, log (foldl exec m cs) rid !! j = Some (set_active b o).
Proof.
  revert m o. induction cs as [|c cs IH]; intros m o Hwf Hj; simpl.
  - exists (active o). by rewrite set_active_id.
  - destruct (exec_keeps m c rid j o Hwf Hj) as [b Hb].
    destruct (IH _ _ (wf_exec m c Hwf) Hb) as [b' Hb'].
    exists b'. by rewrite Hb'.
Qed.

(** The log is append-only: whatever calls follow, an operation stays at its
    position in the log of its room with every field but [active] as it was
    stamped, and no log gets shorter. *)
Theorem log_append_only (cs cs' : list call) (roomId : RoomId) :
  (∀ j o, log (run cs) roomId !! j = Some o →
          ∃ b, log (run (cs ++ cs')) roomId !! j = Some (set_active b o)) ∧
  length (log (run cs) roomId) ≤ length (log (run (cs ++ cs')) roomId).
Proof.
  assert (∀ j o, log (run cs) roomId !! j = Some o →
          ∃ b, log (run (cs ++ cs')) roomId !! j = Some (set_active b o)) as Hkeep.
  { intros j o Hj. rewrite run_app. apply foldl_keeps; [apply wf_run | done]. }
  split; [done|].
  destruct (log (run cs) roomId) as [|x l] eqn:E using rev_ind; [simpl; lia|].
  clear IHl. destruct (Hkeep (length l) x) as [b Hb].
  { by rewrite lookup_app_r, Nat.sub_diag by lia. }
  apply lookup_lt_Some in Hb. rewrite length_app. simpl. lia.
Qed.

(** ** The server flags what the client flags *)

Lemma is_str_iff v lit : is_str v lit = true ↔ v = Str lit.
Proof.
  split; [apply is_str_true|]. intros ->. simpl. apply String.eqb_refl.
Qed.

Lemma flag_all_miss tgt b (l : list Op) :
  (∀ o, o ∈ l → tgt ≠ Str (opID o)) → flag_all tgt b l = l.
Proof.
  intros Hm. unfold flag_all. induction l as [|o l IH]; [done|].
  csimpl. rewrite IH by (intros o' Ho'; apply Hm; by right). f_equal.
  destruct (is_str tgt (opID o)) eqn:E; [|done].
  apply is_str_iff in E. exfalso. by apply (Hm o); [left|].
Qed.

Lemma flag_all_hit m rid i o b :
  wf m → log m rid !! i = Some o →
  flag_all (Str (opID o)) b (log m rid) = <[i := set_active b o]> (log m rid).
Proof.
  intros Hwf Hi. apply list_eq. intros j. unfold flag_all.
  rewrite list_lookup_fmap.
  destruct (log_seq_opID m rid i o Hwf Hi) as [_ Hid].
  destruct (decide (i = j)) as [<-|Hne].
  - rewrite list_lookup_insert_eq by by eapply lookup_lt_Some.
    rewrite Hi. simpl. by rewrite String.eqb_refl.
  - rewrite list_lookup_insert_ne by done.
    destruct (log m rid !! j) as [o'|] eqn:Hj; [|done]. simpl.
    destruct (log_seq_opID m rid j o' Hwf Hj) as [_ Hid'].
    destruct (String.eqb (opID o) (opID o')) eqn:E; [|done].
    apply String.eqb_eq in E. rewrite Hid, Hid' in E.
    apply mk_opID_inj in E as [_ [= ->]]. done.
Qed.

Lemma flag_all_app tgt b (l k : list Op) :
  flag_all tgt b (l ++ k) = flag_all tgt b l ++ flag_all tgt b k.
Proof. unfold flag_all. apply fmap_app. Qed.

Lemma requested_target_filled k :
  requested_target (Obj [("targetOpID", Str k)]) = Str k.
Proof. reflexivity. Qed.

(** The log of the room after [appendOp], in terms of the stamped operation
    alone: the flags are assigned as [apply_flags] assigns them from the
    stored type and payload, and the operation is pushed. *)
Lemma appendOp_log_apply_flags m rid raw s now :
  wf m →
  log (appendOp m rid raw s now).1 rid
  = apply_flags (stamped_op m rid raw s now) (log m rid) ++ [stamped_op m rid raw s now].
Proof.
  intros Hwf.
  assert (∀ tgt, opMap_get (opMap (room_of m rid)) tgt = None →
                 ∀ o, o ∈ log m rid → tgt ≠ Str (opID o)) as Hnotfound.
  { intros tgt Hg o [i Hi]%list_elem_of_lookup ->. simpl in Hg.
    assert (lookup_op m rid (opID o) = Some o) as Hl.
    { apply lookup_op_log; [done|]. by exists i. }
    unfold lookup_op in Hl. by rewrite Hg in Hl. }
  assert (∀ b, resolved_heap m rid raw = heap m →
               (∀ o, o ∈ log m rid →
                     requested_target (payload (stamped_op m rid raw s now)) ≠ Str (opID o)) →
               log (appendOp m rid raw s now).1 rid
               = flag_all (requested_target (payload (stamped_op m rid raw s now))) b (log m rid)
                 ++ [stamped_op m rid raw s now]) as Hmiss.
  { intros b Hh Hno. rewrite flag_all_miss by done.
    rewrite (appendOp_log_unchanged m rid raw s now Hwf Hh rid).
    by rewrite decide_True. }
  assert (∀ b i l o, ops (room_of m rid) !! i = Some l → heap m !! l = Some o →
               resolved_heap m rid raw = alter (set_active b) l (heap m) →
               requested_target (payload (stamped_op m rid raw s now)) = Str (opID o) →
               log (appendOp m rid raw s now).1 rid
               = flag_all (requested_target (payload (stamped_op m rid raw s now))) b (log m rid)
                 ++ [stamped_op m rid raw s now]) as Hhit.
  { intros b i l o Hi Ho Hh Htgt.
    destruct (appendOp_log_flag m rid raw s now i l o b Hwf Hi Ho Hh) as [-> _].
    rewrite Htgt, (flag_all_hit m rid i o b); [done..|].
    rewrite log_lookup by done. by rewrite Hi. }
  assert (resolved_heap m rid raw = heap m →
          log (appendOp m rid raw s now).1 rid = log m rid ++ [stamped_op m rid raw s now])
    as Hsame.
  { intros Hh. rewrite (appendOp_log_unchanged m rid raw s now Hwf Hh rid).
    by rewrite decide_True. }
  unfold apply_flags.
  destruct (is_str (assoc "type" raw) "undo") eqn:Hu;
    [|destruct (is_str (assoc "type" raw) "redo") eqn:Hr].
  - apply is_str_true in Hu.
    assert (type (stamped_op m rid raw s now) = Str "undo") as -> by done.
    change (is_str (Str "undo") "stroke") with false.
    change (is_str (Str "undo") "undo") with true. cbv iota.
    destruct (truthy (requested_target (raw_payload raw))) eqn:Ht.
    + assert (payload (stamped_op m rid raw s now) = raw_payload raw) as Hpl.
      { unfold stamped_op. simpl. by rewrite Hu, resolve_undo_explicit. }
      assert (resolved_heap m rid raw
              = match opMap_get (opMap (room_of m rid)) (requested_target (raw_payload raw)) with
                | Some l => alter (set_active false) l (heap m)
                | None => heap m
                end) as Hh.
      { unfold resolved_heap. by rewrite Hu, resolve_undo_explicit. }
      rewrite Hpl at 1. rewrite Ht.
      destruct (opMap_get _ _) as [l|] eqn:Hg.
      * apply opMap_get_wf in Hg as (i & o & Hi & Ho & Htgt & _); [|done].
        apply (Hhit false i l o); auto. by rewrite Hpl.
      * apply Hmiss; [done|]. rewrite Hpl. by apply Hnotfound.
    + pose proof (scan_log m rid Hwf) as Hscan.
      pose proof (resolve_undo_implicit (room_of m rid) (heap m) _ Ht) as Hres.
      destruct (scan _ _ _) as [[l t]|].
      * destruct Hscan as (i & Hi & Ho & Hlog & _).
        assert (payload (stamped_op m rid raw s now) = Obj [("targetOpID", Str (opID t))])
          as Hpl by (unfold stamped_op; simpl; by rewrite Hu, Hres).
        assert (requested_target (payload (stamped_op m rid raw s now)) = Str (opID t))
          as Htgt by by rewrite Hpl.
        rewrite Htgt at 1.
        destruct (log_seq_opID m rid i t Hwf Hlog) as [_ Hid].
        rewrite Hid at 1. rewrite mk_opID_truthy.
        apply (Hhit false i l t); auto.
        unfold resolved_heap. by rewrite Hu, Hres.
      * assert (payload (stamped_op m rid raw s now) = raw_payload raw) as Hpl
          by (unfold stamped_op; simpl; by rewrite Hu, Hres).
        rewrite Hpl, Ht. apply Hsame. unfold resolved_heap. by rewrite Hu, Hres.
  - apply is_str_true in Hr.
    assert (type (stamped_op m rid raw s now) = Str "redo") as -> by done.
    change (is_str (Str "redo") "stroke") with false.
    change (is_str (Str "redo") "undo") with false.
    change (is_str (Str "redo") "redo") with true. cbv iota.
    assert (payload (stamped_op m rid raw s now) = raw_payload raw) as Hpl.
    { unfold stamped_op. simpl. rewrite Hr. by apply resolve_payload_kept. }
    destruct (truthy (requested_target (raw_payload raw))) eqn:Ht.
    + assert (resolved_heap m rid raw
              = match opMap_get (opMap (room_of m rid)) (requested_target (raw_payload raw)) with
                | Some l => alter (set_active true) l (heap m)
                | None => heap m
                end) as Hh.
      { unfold resolved_heap. by rewrite Hr, resolve_redo_explicit. }
      rewrite Hpl at 1. rewrite Ht.
      destruct (opMap_get _ _) as [l|] eqn:Hg.
      * apply opMap_get_wf in Hg as (i & o & Hi & Ho & Htgt & _); [|done].
        apply (Hhit true i l o); auto. by rewrite Hpl.
      * apply Hmiss; [done|]. rewrite Hpl. by apply Hnotfound.
    + rewrite Hpl, Ht. apply Hsame. unfold resolved_heap.
      by rewrite Hr, resolve_redo_implicit.
  - assert (type (stamped_op m rid raw s now) = assoc "type" raw) as -> by done.
    rewrite Hu, Hr.
    assert (log (appendOp m rid raw s now).1 rid = log m rid ++ [stamped_op m rid raw s now])
      as ->; [|by destruct (is_str _ "stroke")].
    apply Hsame. unfold resolved_heap. by rewrite resolve_other.
Qed.

Lemma appendOp_log_other m rid raw s now rid' :
  wf m → rid' ≠ rid → log (appendOp m rid raw s now).1 rid' = log m rid'.
Proof.
  intros Hwf Hne.
  destruct (appendOp_effect m rid raw s now Hwf) as [Hsame|(i & t & b & _ & _ & _ & H2)];
    [|by apply H2].
  by rewrite Hsame, decide_False, app_nil_r.
Qed.

Lemma apply_flags_undo op ops :
  type op = Str "undo" →
  apply_flags op ops
  = if truthy (requested_target (payload op))
    then flag_all (requested_target (payload op)) false ops else ops.
Proof. intros Hty. unfold apply_flags. by rewrite Hty. Qed.

Lemma apply_flags_redo op ops :
  type op = Str "redo" →
  apply_flags op ops
  = if truthy (requested_target (payload op))
    then flag_all (requested_target (payload op)) true ops else ops.
Proof. intros Hty. unfold apply_flags. by rewrite Hty. Qed.

Lemma logged_opID_truthy m rid i o :
  wf m → log m rid !! i = Some o → truthy (Str (opID o)) = true.
Proof.
  intros Hwf Hi. destruct (log_seq_opID m rid i o Hwf Hi) as [_ ->].
  apply mk_opID_truthy.
Qed.

(** ** Undo, then redo *)

(** A redo that carries the [targetOpID] stored with an undo puts the log
    back: when an undo (with or without a target of its own) has cleared
    the flag of an operation [o] that was active, a redo naming the target
    stored in that undo leaves the log of the room as it was before the
    undo, followed by the undo and the redo; the other rooms are untouched
    throughout. *)
Theorem undo_then_redo (cs : list call) (roomId : RoomId)
    (raw1 raw2 : list (string * value)) (s1 s2 : string) (now1 now2 : Z) (o u1 : Op) :
  assoc "type" raw1 = Str "undo" → assoc "type" raw2 = Str "redo" →
  o ∈ log (run cs) roomId → active o = true →
  last (log (appendOp (run cs) roomId raw1 s1 now1).1 roomId) = Some u1 →
  requested_target (payload u1) = Str (opID o) →
  requested_target (raw_payload raw2) = requested_target (payload u1) →
  set_active false o ∈ log (appendOp (run cs) roomId raw1 s1 now1).1 roomId ∧
  (∃ u2, log (appendOp (appendOp (run cs) roomId raw1 s1 now1).1 roomId raw2 s2 now2).1 roomId
         = log (run cs) roomId ++ [u1; u2]) ∧
  ∀ rid, rid ≠ roomId →
         log (appendOp (appendOp (run cs) roomId raw1 s1 now1).1 roomId raw2 s2 now2).1 rid
         = log (run cs) rid.
Proof.
  intros Hty1 Hty2 [i Hi]%list_elem_of_lookup Hact Hlast Htgt1 Htgt2.
  set (m := run cs) in *. set (m1 := (appendOp m roomId raw1 s1 now1).1) in *.
  assert (wf m) as Hwf by apply wf_run.
  assert (wf m1) as Hwf1 by by apply wf_appendOp.
  destruct (log_seq_opID m roomId i o Hwf Hi) as [_ Hid].
  pose proof (appendOp_log_apply_flags m roomId raw1 s1 now1 Hwf) as Hlog1.
  fold m1 in Hlog1. rewrite Hlog1, last_snoc in Hlast. injection Hlast as Hu1.
  rewrite Hu1 in Hlog1.
  assert (type u1 = Str "undo") as Hu1ty by by rewrite <- Hu1.
  assert (apply_flags u1 (log m roomId) = <[i := set_active false o]> (log m roomId)) as Hfl.
  { rewrite apply_flags_undo, Htgt1 by done.
    rewrite (logged_opID_truthy m roomId i o) by done. by apply flag_all_hit. }
  rewrite Hfl in Hlog1.
  assert (log m1 roomId !! i = Some (set_active false o)) as Hi1.
  { rewrite Hlog1. apply lookup_app_l_Some.
    apply list_lookup_insert_eq. by eapply lookup_lt_Some. }
  split_and!.
  - by eapply list_elem_of_lookup_2.
  - exists (stamped_op m1 roomId raw2 s2 now2).
    rewrite (appendOp_log_apply_flags m1 roomId raw2 s2 now2 Hwf1).
    assert (payload (stamped_op m1 roomId raw2 s2 now2) = raw_payload raw2) as Hpl2.
    { unfold stamped_op. simpl. rewrite Hty2. by apply resolve_payload_kept. }
    rewrite apply_flags_redo by done.
    rewrite Hpl2, Htgt2, Htgt1.
    rewrite (logged_opID_truthy m roomId i o) by done.
    change (opID o) with (opID (set_active false o)).
    rewrite (flag_all_hit m1 roomId i (set_active false o) true Hwf1 Hi1).
    rewrite Hlog1. rewrite insert_app_l
      by (rewrite length_insert; by eapply lookup_lt_Some).
    rewrite list_insert_insert_eq.
    assert (set_active true (set_active false o) = o) as ->.
    { destruct o. simpl in *. by subst. }
    rewrite list_insert_id by done. by rewrite <- app_assoc.
  - intros rid Hne. rewrite appendOp_log_other by done.
    fold m1. unfold m1. by rewrite appendOp_log_other.
Qed.

(** After the first undo of the example takes S2, a redo naming the stored
    target brings S2 back. *)
Lemma undo_then_redo_witness :
  S2 ∈ log (run two_strokes) "room1" ∧
  ∃ u1 u2,
    log (appendOp (appendOp (run two_strokes) "room1" (undo_raw None) "c" 30%Z).1 "room1"
           [("type", Str "redo"); ("payload", Obj [("targetOpID", Str "room1::000002")])]
           "d" 40%Z).1 "room1"
    = log (run two_strokes) "room1" ++ [u1; u2].
Proof.
  assert (S2 ∈ log (run two_strokes) "room1") as Hin.
  { apply list_elem_of_further, list_elem_of_here. }
  split; [exact Hin|].
  eexists.
  apply (undo_then_redo two_strokes "room1" (undo_raw None)
           [("type", Str "redo"); ("payload", Obj [("targetOpID", Str "room1::000002")])]
           "c" "d" 30%Z 40%Z S2 _ eq_refl eq_refl Hin eq_refl eq_refl eq_refl eq_refl).
Defined.

(** ** Counting active strokes *)

Lemma active_stroke_off o : active_stroke (set_active false o) = false.
Proof. unfold active_stroke. simpl. apply andb_false_r. Qed.

Lemma active_count_app l k : active_count (l ++ k) = active_count l + active_count k.
Proof. unfold active_count. by rewrite filter_app, length_app. Qed.

Lemma active_count_switch_off (l : list Op) i t :
  l !! i = Some t → active_stroke t = true →
  active_count (<[i := set_active false t]> l) = pred (active_count l).
Proof.
  intros Hi Ht.
  rewrite insert_take_drop by by eapply lookup_lt_Some.
  assert (active_count l
          = active_count (take i l) + S (active_count (drop (S i) l))) as ->.
  { rewrite <- (take_drop_middle l i t Hi) at 1. rewrite active_count_app.
    f_equal. unfold active_count. rewrite filter_cons, decide_True; done. }
  assert (active_count (set_active false t :: drop (S i) l)
          = active_count (drop (S i) l)) as Hoff.
  { unfold active_count. rewrite filter_cons, decide_False; [done|].
    by rewrite active_stroke_off. }
  rewrite active_count_app, Hoff. lia.
Qed.

Lemma active_count_not_stroke u : is_str (type u) "stroke" = false → active_count [u] = 0.
Proof.
  intros Hty. unfold active_count. rewrite filter_cons, decide_False; [done|].
  unfold active_stroke. by rewrite Hty.
Qed.

(** One undo without a target lowers the number of active strokes by one,
    unless there is none. *)
Lemma appendOp_plain_undo_count m rid raw s now :
  wf m → assoc "type" raw = Str "undo" →
  truthy (requested_target (raw_payload raw)) = false →
  active_count (log (appendOp m rid raw s now).1 rid) = pred (active_count (log m rid)).
Proof.
  intros Hwf Hty Hno.
  destruct (newest_active_stroke (log m rid)) as [t|] eqn:Hnew.
  - destruct (appendOp_undo_newest m rid raw s now t Hwf Hty Hno Hnew)
      as (u & -> & _ & Hu & _).
    destruct (newest_active_stroke_max m rid t Hwf Hnew) as (Hat & Hact & _).
    rewrite active_count_app, active_count_switch_off by done.
    rewrite active_count_not_stroke by by rewrite Hu. lia.
  - unfold newest_active_stroke in Hnew. apply last_None in Hnew.
    assert (active_count (log m rid) = 0) as Hz by (unfold active_count; by rewrite Hnew).
    rewrite appendOp_log_apply_flags by done.
    assert (type (stamped_op m rid raw s now) = Str "undo") as Huty by done.
    assert (payload (stamped_op m rid raw s now) = raw_payload raw) as Hpl.
    { unfold stamped_op. simpl. rewrite Hty, resolve_undo_implicit by done.
      rewrite scan_None_newest; [done..|]. unfold newest_active_stroke. by rewrite Hnew. }
    rewrite apply_flags_undo, Hpl, Hno by done.
    rewrite active_count_app, Hz. by rewrite active_count_not_stroke by by rewrite Huty.
Qed.

Lemma foldl_plain_undos m rid undos :
  wf m →
  Forall (λ c, ∃ raw s now, c = AppendOp rid raw s now ∧
                            assoc "type" raw = Str "undo" ∧
                            truthy (requested_target (raw_payload raw)) = false) undos →
  active_count (log (foldl exec m undos) rid) = active_count (log m rid) - length undos ∧
  ∀ rid', rid' ≠ rid → log (foldl exec m undos) rid' = log m rid'.
Proof.
  intros Hwf Hall. revert m Hwf.
  induction Hall as [|c undos (raw & s & now & -> & Hty & Hno) _ IH]; intros m Hwf.
  - simpl. split; [lia | done].
  - simpl. destruct (IH _ (wf_appendOp m rid raw s now Hwf)) as [H1 H2].
    rewrite H1, appendOp_plain_undo_count by done. split; [lia|].
    intros rid' Hne. rewrite H2 by done. by apply appendOp_log_other.
Qed.

(** Undos without a target, one after the other on one room, deactivate
    one active stroke each until none is left: after [k] of them the room
    has [k] fewer active strokes (or none), and the logs of the other rooms
    are as before. *)
Theorem plain_undos_count (cs undos : list call) (roomId : RoomId) :
  Forall (λ c, ∃ raw s now, c = AppendOp roomId raw s now ∧
                            assoc "type" raw = Str "undo" ∧
                            truthy (requested_target (raw_payload raw)) = false) undos →
  active_count (log (run (cs ++ undos)) roomId)
  = active_count (log (run cs) roomId) - length undos ∧
  ∀ rid, rid ≠ roomId → log (run (cs ++ undos)) rid = log (run cs) rid.
Proof.
  intros Hall. rewrite run_app. apply foldl_plain_undos; [apply wf_run | done].
Qed.

(** Three undos after the two strokes of the example leave no active stroke. *)
Lemma plain_undos_count_witness :
  active_count (log (run two_strokes) "room1") = 2 ∧
  active_count (log (run (two_strokes ++ replicate 3 (AppendOp "room1" (undo_raw None) "c" 30%Z)))
                    "room1") = 0.
Proof.
  split; [reflexivity|].
  destruct (plain_undos_count two_strokes
              (replicate 3 (AppendOp "room1" (undo_raw None) "c" 30%Z)) "room1") as [H _].
  { repeat constructor; by exists (undo_raw None), "c", 30%Z. }
  exact H.
Defined.

(** ** Rooms are created on demand and never removed *)

Lemma ensure_room_ids m rid :
  room_ids (_ensure m rid)
  = if ahas rid (rooms m) then room_ids m else room_ids m ++ [rid].
Proof.
  unfold _ensure, room_ids. destruct (ahas rid (rooms m)) eqn:E; [done|].
  simpl. by rewrite aset_keys, E.
Qed.

Lemma ahas_ensure m rid : ahas rid (rooms (_ensure m rid)) = true.
Proof. unfold ahas. by rewrite ensure_get. Qed.

Lemma exec_room_ids m c : room_ids m `prefix_of` room_ids (exec m c).
Proof.
  assert (∀ rid, room_ids m `prefix_of` room_ids (_ensure m rid)) as Hens.
  { intros rid. rewrite ensure_room_ids. destruct (ahas rid (rooms m)); [done|].
    by apply prefix_app_r. }
  destruct c as [r s u c|s|r|r lim|r raw s now]; simpl;
    rewrite ?getClients_fst, ?getHistory_fst; auto.
  - rewrite addClient_eq. unfold room_ids at 2. simpl.
    rewrite aset_keys, ahas_ensure. apply Hens.
  - rewrite removeClientBySocket_eq. unfold room_ids at 2. simpl.
    by rewrite fmap_rooms_keys.
  - rewrite appendOp_eq. unfold room_ids at 2. simpl.
    rewrite aset_keys, ahas_ensure. apply Hens.
Qed.

Lemma foldl_room_ids m cs : room_ids m `prefix_of` room_ids (foldl exec m cs).
Proof.
  revert m. induction cs as [|c cs IH]; intros m; [done|].
  simpl. etrans; [apply exec_room_ids | apply IH].
Qed.

(** No call removes or reorders a room, and a room has one entry.  A reader
    ([getHistory], [getClients]) called on a room that does not exist yet
    returns the empty list and creates the room at the end of the map; on a
    room that exists it leaves the manager as it is. *)
Theorem rooms_only_grow (cs cs' : list call) (roomId : RoomId) (limit : option Z) :
  room_ids (run cs) `prefix_of` room_ids (run (cs ++ cs')) ∧
  NoDup (room_ids (run cs)) ∧
  (roomId ∉ room_ids (run cs) →
   (getHistory (run cs) roomId limit).2 = [] ∧
   (getClients (run cs) roomId).2 = [] ∧
   room_ids (getHistory (run cs) roomId limit).1 = room_ids (run cs) ++ [roomId] ∧
   room_ids (getClients (run cs) roomId).1 = room_ids (run cs) ++ [roomId]) ∧
  (roomId ∈ room_ids (run cs) →
   (getHistory (run cs) roomId limit).1 = run cs ∧
   (getClients (run cs) roomId).1 = run cs).
Proof.
  split_and!.
  - rewrite run_app. apply foldl_room_ids.
  - apply (wf_keys _ (wf_run cs)).
  - intros Hnot. apply aget_None_keys in Hnot.
    assert (room_of (run cs) roomId = fresh_room) as Hfresh
      by (unfold room_of; by rewrite Hnot).
    assert (ahas roomId (rooms (run cs)) = false) as Hhas
      by (unfold ahas; by rewrite Hnot).
    rewrite getHistory_fst, getClients_fst, ensure_room_ids, Hhas.
    unfold getHistory, getClients. rewrite ensure_get, Hfresh. simpl.
    split_and!; try done. unfold slice_from. by rewrite drop_nil.
  - intros Hin. rewrite getHistory_fst, getClients_fst.
    assert (ahas roomId (rooms (run cs)) = true) as Hhas.
    { unfold ahas. destruct (aget roomId (rooms (run cs))) eqn:E; [done|].
      by apply aget_None_keys in E. }
    unfold _ensure. by rewrite Hhas.
Qed.

(** ** Membership *)

Lemma aset_elem {K} `{EqDecision K} {V} (k : K) (v : V) m k' v' :
  (k', v') ∈ aset k v m → (k', v') = (k, v) ∨ (k', v') ∈ m.
Proof.
  induction m as [|[k0 v0] m IH]; simpl.
  - intros ->%list_elem_of_singleton. by left.
  - case_decide; subst; rewrite !elem_of_cons; [tauto|].
    intros [->|Hin]; [tauto|]. destruct (IH Hin); tauto.
Qed.

Lemma adelete_elem {K} `{EqDecision K} {V} (k : K) (m : list (K * V)) k' v' :
  (k', v') ∈ (adelete k m).1 → (k', v') ∈ m.
Proof.
  induction m as [|[k0 v0] m IH]; simpl; [done|].
  case_decide; subst; simpl.
  - apply list_elem_of_further.
  - destruct (adelete k m) as [m' b]. simpl in *.
    rewrite !elem_of_cons. intros [->|Hin]; auto.
Qed.

Lemma clients_keyed_room_of m :
  clients_keyed m ↔
  ∀ rid s info, (s, info) ∈ clients (room_of m rid) → ci_clientId info = s.
Proof.
  unfold clients_keyed, room_of. split.
  - intros Hall rid s info. destruct (aget rid (rooms m)) as [r|] eqn:E; simpl.
    + by apply (Hall rid r).
    + by intros ?%elem_of_nil.
  - intros Hall rid r s info E Hin. apply (Hall rid). by rewrite E.
Qed.

Lemma clients_keyed_exec m c : clients_keyed m → clients_keyed (exec m c).
Proof.
  rewrite !clients_keyed_room_of. intros Hk rid s0 info.
  destruct c as [r s u c|s|r|r lim|r raw s now]; simpl;
    rewrite ?getClients_fst, ?getHistory_fst, ?ensure_room_of; try apply Hk.
  - rewrite addClient_room_of. case_decide; subst; [|apply Hk]. simpl.
    intros [[= -> ->]|Hin]%aset_elem; [done | by eauto].
  - rewrite removeClientBySocket_room_of. simpl. intros Hin%adelete_elem. eauto.
  - rewrite appendOp_room_of. case_decide; subst; simpl; eauto.
Qed.

Lemma clients_keyed_run cs : clients_keyed (run cs).
Proof.
  induction cs as [|c cs IH] using rev_ind.
  - intros rid r s info. done.
  - rewrite run_snoc. by apply clients_keyed_exec.
Qed.

Lemma getClients_snd m rid : (getClients m rid).2 = (clients (room_of m rid)).*2.
Proof. unfold getClients. by rewrite ensure_get. Qed.

Lemma keyed_ids (cl : list (string * ClientInfo)) :
  (∀ s info, (s, info) ∈ cl → ci_clientId info = s) →
  ci_clientId <$> cl.*2 = cl.*1.
Proof.
  induction cl as [|[k v] cl IH]; intros Hk; [done|].
  csimpl. rewrite IH by (intros ???; apply Hk; by right).
  f_equal. apply Hk. by left.
Qed.

Lemma aset_filter_self (cl : list (string * ClientInfo)) s info :
  (∀ k v, (k, v) ∈ cl → ci_clientId v = k) → NoDup cl.*1 → ci_clientId info = s →
  filter (λ i, ci_clientId i = s) (aset s info cl).*2 = [info] ∧
  filter (λ i, ci_clientId i ≠ s) (aset s info cl).*2
  = filter (λ i, ci_clientId i ≠ s) cl.*2.
Proof.
  intros Hk Hnd Hinfo. induction cl as [|[k v] cl IH].
  - csimpl. rewrite !filter_cons, !filter_nil.
    rewrite decide_True, decide_False by auto. done.
  - rewrite fmap_cons in Hnd. apply NoDup_cons in Hnd as [Hk0 Hnd].
    assert (ci_clientId v = k) as Hv by (apply Hk; by left).
    assert (∀ k' v', (k', v') ∈ cl → ci_clientId v' = k') as Hk'
      by (intros ???; apply Hk; by right).
    simpl. destruct (decide (s = k)) as [Heq|Hne].
    + csimpl. rewrite !filter_cons.
      rewrite (decide_True (P := ci_clientId info = s)) by done.
      rewrite (decide_False (P := ci_clientId info ≠ s)) by auto.
      rewrite (decide_False (P := ci_clientId v ≠ s)) by (rewrite Hv; auto).
      split; [|done]. f_equal. apply filter_nil_all.
      intros i [[k' v'] [-> Hin]]%list_elem_of_fmap Hi. simpl in Hi.
      apply Hk0. apply list_elem_of_fmap. exists (k', v'). split; [|done].
      simpl. rewrite <- (Hk' k' v' Hin). congruence.
    + destruct (IH Hk' Hnd) as [IH1 IH2]. csimpl. rewrite !filter_cons.
      rewrite (decide_False (P := ci_clientId v = s)) by congruence.
      rewrite !(decide_True (P := ci_clientId v ≠ s)) by congruence.
      split; [done | by f_equal].
Qed.

(** [addClient] returns the entry it stores; afterwards the member list of
    the room holds that entry, once, for the socket, and the entries of the
    other members as they were and in their order; a member list never has
    two entries for one client; no other room and no log changes. *)
Theorem addClient_getClients (cs : list call) (roomId : RoomId) (socketId : string)
    (u c : value) :
  let m := run cs in
  let m1 := (addClient m roomId socketId u c).1 in
  let info := {| ci_clientId := socketId; username := or_default u (Str "Anon");
                 color := or_default c (Str "#000") |} in
  (addClient m roomId socketId u c).2 = Some info ∧
  filter (λ i, ci_clientId i = socketId) (getClients m1 roomId).2 = [info] ∧
  filter (λ i, ci_clientId i ≠ socketId) (getClients m1 roomId).2
  = filter (λ i, ci_clientId i ≠ socketId) (getClients m roomId).2 ∧
  NoDup (ci_clientId <$> (getClients m1 roomId).2) ∧
  (∀ rid, rid ≠ roomId → (getClients m1 rid).2 = (getClients m rid).2) ∧
  (∀ rid, log m1 rid = log m rid).
Proof.
  intros m m1 info. assert (wf m) as Hwf by apply wf_run.
  pose proof (proj1 (clients_keyed_room_of m) (clients_keyed_run cs) roomId) as Hk.
  pose proof (wf_clients _ _ _ (room_of_wf m roomId Hwf)) as Hnd.
  destruct (aset_filter_self (clients (room_of m roomId)) socketId info Hk Hnd eq_refl)
    as [Hself Hothers].
  assert (clients (room_of m1 roomId) = aset socketId info (clients (room_of m roomId)))
    as Hcl.
  { unfold m1. rewrite addClient_room_of, decide_True by done. done. }
  split_and!.
  - unfold addClient. rewrite ensure_get. simpl. apply aget_aset_eq.
  - by rewrite getClients_snd, Hcl.
  - by rewrite !getClients_snd, Hcl.
  - rewrite getClients_snd, Hcl. rewrite keyed_ids.
    + by apply aset_NoDup.
    + intros s i [[= -> ->]|Hin]%aset_elem; [done | by apply Hk].
  - intros rid Hne. rewrite !getClients_snd. unfold m1.
    by rewrite addClient_room_of, decide_False.
  - intros rid. apply addClient_log.
Qed.

Lemma remove_noop m s :
  wf m → (∀ rid, ahas s (clients (room_of m rid)) = false) →
  removeClientBySocket m s = (m, []).
Proof.
  intros Hwf Hnone.
  assert (∀ e, e ∈ rooms m → ahas s (clients e.2) = false) as Hall.
  { intros [k r] Hin. simpl. rewrite <- (room_of_elem m k r Hwf Hin). apply Hnone. }
  rewrite removeClientBySocket_eq. f_equal.
  - destruct m as [rs h]. simpl in *. f_equal. clear -Hall.
    induction rs as [|[k r] rs IH]; [done|].
    csimpl. rewrite IH by (intros e He; apply Hall; by right). f_equal. f_equal.
    specialize (Hall (k, r) (list_elem_of_here _ _)). simpl in Hall.
    unfold strip, with_clients. unfold ahas in Hall.
    destruct (aget s (clients r)) eqn:E; [done|].
    rewrite adelete_absent by done. by destruct r.
  - rewrite filter_nil_all; [done|]. intros e He. by rewrite (Hall e He).
Qed.

Lemma remove_left_iff m s rid :
  wf m → rid ∈ (removeClientBySocket m s).2 ↔ ahas s (clients (room_of m rid)) = true.
Proof.
  intros Hwf. rewrite removeClientBySocket_eq. simpl. rewrite list_elem_of_fmap. split.
  - intros ([k r] & -> & [Hp Hin]%list_elem_of_filter). simpl in *.
    by rewrite (room_of_elem m k r).
  - intros Hhas. unfold room_of in Hhas.
    destruct (aget rid (rooms m)) as [r|] eqn:E; [|done]. simpl in Hhas.
    exists (rid, r). split; [done|]. apply list_elem_of_filter.
    split; [done | by apply aget_Some_elem].
Qed.

Lemma filter_keep_all {A} (P : A → Prop) `{!∀ x, Decision (P x)} (l : list A) :
  (∀ x, x ∈ l → P x) → filter P l = l.
Proof.
  induction l as [|x l IH]; intros Hall; [done|].
  rewrite filter_cons_True by (apply Hall; left).
  f_equal. apply IH. intros y Hy. apply Hall. by right.
Qed.

Lemma adelete_filter (cl : list (string * ClientInfo)) s :
  (∀ k v, (k, v) ∈ cl → ci_clientId v = k) → NoDup cl.*1 →
  (adelete s cl).1.*2 = filter (λ i, ci_clientId i ≠ s) cl.*2.
Proof.
  intros Hk Hnd. induction cl as [|[k v] cl IH]; [done|].
  rewrite fmap_cons in Hnd. apply NoDup_cons in Hnd as [Hk0 Hnd].
  assert (ci_clientId v = k) as Hv by (apply Hk; by left).
  assert (∀ k' v', (k', v') ∈ cl → ci_clientId v' = k') as Hk'
    by (intros ???; apply Hk; by right).
  simpl. destruct (decide (s = k)) as [Heq|Hne].
  - csimpl. rewrite filter_cons, decide_False by (rewrite Hv; auto).
    symmetry. apply filter_keep_all. intros i [[k' v'] [-> Hin]]%list_elem_of_fmap Hi.
    simpl in Hi. apply Hk0. apply list_elem_of_fmap. exists (k', v'). split; [|done].
    simpl. rewrite <- (Hk' k' v' Hin). congruence.
  - specialize (IH Hk' Hnd). destruct (adelete s cl) as [cl' b]. csimpl in *.
    rewrite filter_cons, decide_True by congruence. by f_equal.
Qed.

(** After [removeClientBySocket] the member list of every room is the list
    before without the entry of the client, in the same order; a second
    call finds the client nowhere, returns the empty list and changes
    nothing; and a client that joins a room and leaves is reported for that
    room and leaves the member list as it was without it. *)
Theorem leave_rooms (cs : list call) (socketId : string) :
  let m1 := (removeClientBySocket (run cs) socketId).1 in
  (∀ rid, (getClients m1 rid).2
          = filter (λ i, ci_clientId i ≠ socketId) (getClients (run cs) rid).2) ∧
  removeClientBySocket m1 socketId = (m1, []) ∧
  ∀ rid u c,
    rid ∈ (removeClientBySocket (addClient (run cs) rid socketId u c).1 socketId).2 ∧
    (getClients (removeClientBySocket (addClient (run cs) rid socketId u c).1 socketId).1 rid).2
    = filter (λ i, ci_clientId i ≠ socketId) (getClients (run cs) rid).2.
Proof.
  intros m1.
  assert (∀ cs' rid,
    (getClients (removeClientBySocket (run cs') socketId).1 rid).2
    = filter (λ i, ci_clientId i ≠ socketId) (getClients (run cs') rid).2) as Hafter.
  { intros cs' rid. rewrite !getClients_snd, removeClientBySocket_room_of. simpl.
    apply adelete_filter.
    - apply (proj1 (clients_keyed_room_of _) (clients_keyed_run cs') rid).
    - apply (wf_clients _ _ _ (room_of_wf _ rid (wf_run cs'))). }
  split_and!.
  - apply Hafter.
  - apply remove_noop; [apply wf_removeClientBySocket, wf_run|].
    intros rid. unfold m1, ahas. rewrite removeClientBySocket_room_of. simpl.
    rewrite aget_adelete_eq; [done|].
    apply (wf_clients _ _ _ (room_of_wf _ rid (wf_run cs))).
  - intros rid u c.
    assert ((addClient (run cs) rid socketId u c).1
            = run (cs ++ [AddClient rid socketId u c])) as Hrun
      by by rewrite run_snoc.
    split.
    + apply remove_left_iff; [rewrite Hrun; apply wf_run|].
      rewrite addClient_room_of, decide_True by done. simpl.
      unfold ahas. by rewrite aget_aset_eq.
    + rewrite Hrun, Hafter, <- Hrun.
      pose proof (proj1 (clients_keyed_room_of _) (clients_keyed_run cs) rid) as Hk.
      pose proof (wf_clients _ _ _ (room_of_wf _ rid (wf_run cs))) as Hnd.
      rewrite !getClients_snd, addClient_room_of, decide_True by done. simpl.
      by apply aset_filter_self.
Qed.

(** * The gateway *)

(** ** Every state the handlers reach is a state of the manager *)

Lemma notify_left_fst m l : (notify_left m l).1 = foldl exec m (GetClients <$> l).
Proof.
  revert m. induction l as [|rid l IH]; intros m; [done|].
  csimpl. rewrite <- IH.
  destruct (getClients m rid) as [m1 cl]. simpl.
  by destruct (notify_left m1 l) as [m2 out].
Qed.



Lemma log_opIDs_NoDup m rid : wf m → NoDup (opID <$> log m rid).
Proof.
  intros Hwf. apply NoDup_alt. intros i j k.
  rewrite !list_lookup_fmap.
  destruct (log m rid !! i) as [oi|] eqn:Hi; [|done].
  destruct (log m rid !! j) as [oj|] eqn:Hj; [|done].
  simpl. intros [= <-] [= E].
  destruct (log_seq_opID m rid i oi Hwf Hi) as [_ Hidi].
  destruct (log_seq_opID m rid j oj Hwf Hj) as [_ Hidj].
  rewrite Hidi, Hidj in E. by apply mk_opID_inj in E as [_ [= ->]].
Qed.






(** ** What the handlers emit *)

Lemma ensure_present m rid : ahas rid (rooms m) = true → _ensure m rid = m.
Proof. unfold _ensure. by intros ->. Qed.

Lemma ahas_keys {K} `{EqDecision K} {V} (k : K) (m : list (K * V)) :
  ahas k m = true ↔ k ∈ m.*1.
Proof.
  unfold ahas. destruct (aget k m) eqn:E.
  - split; [|done]. intros _. destruct (decide (k ∈ m.*1)) as [|Hn]; [done|].
    apply aget_None_keys in Hn. congruence.
  - split; [done|]. intros Hin. by apply aget_None_keys in E.
Qed.

Lemma history_sent_eq m rid : wf m → history_sent m rid = last_n 500 (log m rid).
Proof.
  intros Hwf. unfold history_sent, getHistory. rewrite ensure_get. simpl.
  rewrite ensure_heap. unfold slice_from, last_n.
  assert (∀ j l, ops (room_of m rid) !! j = Some l → l < length (heap m)) as Hb.
  { intros j l. apply room_wf_bound with rid. by apply room_of_wf. }
  rewrite deref_drop by done. fold (log m rid).
  assert (length (log m rid) = length (ops (room_of m rid))) as Hlen
    by by apply deref_length.
  f_equal. lia.
Qed.

Lemma last_n_length {A} n (l : list A) : length (last_n n l) ≤ n.
Proof. unfold last_n. rewrite length_drop. lia. Qed.



Lemma getClients_removed cs rid s :
  (getClients (removeClientBySocket (run cs) s).1 rid).2
  = filter (λ i, ci_clientId i ≠ s) (getClients (run cs) rid).2.
Proof.
  rewrite !getClients_snd, removeClientBySocket_room_of. simpl.
  apply adelete_filter.
  - apply (proj1 (clients_keyed_room_of _) (clients_keyed_run cs) rid).
  - apply (wf_clients _ _ _ (room_of_wf _ rid (wf_run cs))).
Qed.

Lemma notify_left_present m l :
  (∀ rid, rid ∈ l → ahas rid (rooms m) = true) →
  notify_left m l = (m, (λ rid, Presence rid (getClients m rid).2) <$> l).
Proof.
  induction l as [|rid l IH]; intros Hall; [done|].
  csimpl.
  assert ((getClients m rid).1 = m) as Hm.
  { rewrite getClients_fst. apply ensure_present, Hall. by left. }
  destruct (getClients m rid) as [m1 cl] eqn:E. simpl in Hm. subst m1.
  by rewrite IH by (intros ??; apply Hall; by right).
Qed.

(** On disconnect the server takes the socket out of every room and emits
    one [presence] message for each room that had it, in the order of the
    rooms, with the member list of the room without the socket; a room that
    did not have the socket gets no message, and no room is created. *)
Theorem disconnect_messages (cs : list call) (sock : string) :
  handle (run cs) sock Disconnect
  = Some ((removeClientBySocket (run cs) sock).1,
          (λ rid, Presence rid
                    (filter (λ i, ci_clientId i ≠ sock) (getClients (run cs) rid).2))
          <$> (removeClientBySocket (run cs) sock).2) ∧
  (∀ rid, rid ∈ (removeClientBySocket (run cs) sock).2 ↔
          sock ∈ ci_clientId <$> (getClients (run cs) rid).2) ∧
  room_ids (removeClientBySocket (run cs) sock).1 = room_ids (run cs).
Proof.
  pose proof (wf_run cs) as Hwf.
  assert (room_ids (removeClientBySocket (run cs) sock).1 = room_ids (run cs)) as Hids.
  { rewrite removeClientBySocket_eq. unfold room_ids. simpl. apply fmap_rooms_keys. }
  assert (notify_left (removeClientBySocket (run cs) sock).1
                      (removeClientBySocket (run cs) sock).2
          = ((removeClientBySocket (run cs) sock).1,
             (λ rid, Presence rid
                       (filter (λ i, ci_clientId i ≠ sock) (getClients (run cs) rid).2))
             <$> (removeClientBySocket (run cs) sock).2)) as Hnl.
  { rewrite notify_left_present.
    - f_equal. apply list_fmap_ext. intros _ rid _. simpl.
      by rewrite getClients_removed.
    - intros rid Hin. apply ahas_keys.
      fold (room_ids (removeClientBySocket (run cs) sock).1). rewrite Hids.
      rewrite removeClientBySocket_eq in Hin. simpl in Hin.
      apply list_elem_of_fmap in Hin as (e & -> & [_ He]%list_elem_of_filter).
      apply list_elem_of_fmap. by exists e. }
  split_and!.
  - simpl. destruct (removeClientBySocket (run cs) sock) as [m1 left].
    simpl in *. by rewrite Hnl.
  - intros rid. rewrite remove_left_iff by done. rewrite getClients_snd.
    rewrite keyed_ids
      by apply (proj1 (clients_keyed_room_of _) (clients_keyed_run cs) rid).
    apply ahas_keys.
  - done.
Qed.

(** A [join_room] message (not null) makes the socket a member of the room
    it names ([room1] when the room identifier is absent), under the name
    and colour of the
    message or ['Anon'] and ['#000000'], and emits three messages: [joined]
    to the socket and [presence] to the room, both with the member list of
    the room after the join, in which the socket has one entry and the other
    members are as before; and [history] to the socket, with the last 500
    operations of the log at most, read with their current flags.  No log
    changes. *)
Theorem join_room_messages (cs : list call) (sock : string) (arg : value) :
  is_null arg = false →
  let roomId := room_key (run cs) (or_default (get_prop arg "roomId") (Str "room1")) in
  ∃ m' peers,
    handle (run cs) sock (JoinRoom arg)
    = Some (m', [Joined sock sock roomId peers; Presence roomId peers;
                 History sock (last_n 500 (log (run cs) roomId))]) ∧
    peers = (getClients m' roomId).2 ∧
    filter (λ i, ci_clientId i = sock) peers
    = [{| ci_clientId := sock;
          username := or_default (get_prop arg "username") (Str "Anon");
          color := or_default (get_prop arg "color") (Str "#000000") |}] ∧
    filter (λ i, ci_clientId i ≠ sock) peers
    = filter (λ i, ci_clientId i ≠ sock) (getClients (run cs) roomId).2 ∧
    length (last_n 500 (log (run cs) roomId)) ≤ 500 ∧
    (∀ rid, log m' rid = log (run cs) rid).
Proof.
  intros Hnull roomId.
  set (u := or_default (get_prop arg "username") (Str "Anon")).
  set (c := or_default (get_prop arg "color") (Str "#000000")).
  set (m1 := (addClient (run cs) roomId sock u c).1).
  assert (m1 = run (cs ++ [AddClient roomId sock u c])) as Hrun by by rewrite run_snoc.
  assert (wf m1) as Hwf1 by (rewrite Hrun; apply wf_run).
  assert (_ensure m1 roomId = m1) as Hens.
  { apply ensure_present. unfold ahas, m1. rewrite addClient_eq. simpl.
    by rewrite aget_aset_eq. }
  assert (getClients m1 roomId = (m1, (getClients m1 roomId).2)) as Hgc.
  { rewrite <- Hens at 2. rewrite <- getClients_fst. by destruct (getClients m1 roomId). }
  assert (getHistory m1 roomId None = (m1, (getHistory m1 roomId None).2)) as Hgh.
  { rewrite <- Hens at 2. rewrite <- (getHistory_fst m1 roomId None).
    by destruct (getHistory m1 roomId None). }
  assert (or_default u (Str "Anon") = u) as Hu by (unfold u; by destruct (get_prop arg "username")).
  assert (or_default c (Str "#000") = c) as Hc by (unfold c; by destruct (get_prop arg "color")).
  pose proof (proj1 (clients_keyed_room_of _) (clients_keyed_run cs) roomId) as Hk.
  pose proof (wf_clients _ _ _ (room_of_wf _ roomId (wf_run cs))) as Hnd.
  destruct (aset_filter_self (clients (room_of (run cs) roomId)) sock
              {| ci_clientId := sock; username := u; color := c |} Hk Hnd eq_refl)
    as [Hself Hothers].
  assert (clients (room_of m1 roomId)
          = aset sock {| ci_clientId := sock; username := u; color := c |}
                 (clients (room_of (run cs) roomId))) as Hcl.
  { unfold m1. rewrite addClient_room_of, decide_True by done. simpl. by rewrite Hu, Hc. }
  exists m1, (getClients m1 roomId).2. split_and!.
  - assert (addClient (run cs) roomId sock u c
            = (m1, (addClient (run cs) roomId sock u c).2)) as Hac
      by (unfold m1; by destruct (addClient (run cs) roomId sock u c)).
    simpl. rewrite Hnull. fold roomId u c.
    rewrite Hac, Hgc, Hgc, Hgh. do 4 f_equal.
    assert (deref (heap m1) (getHistory m1 roomId None).2 = history_sent m1 roomId) as ->.
    { unfold history_sent. by rewrite getHistory_fst, Hens. }
    rewrite history_sent_eq by done.
    unfold m1. by rewrite addClient_log.
  - done.
  - by rewrite getClients_snd, Hcl.
  - by rewrite !getClients_snd, Hcl.
  - apply last_n_length.
  - intros rid. apply addClient_log.
Qed.

(** The client's join, [{ roomId: 'room1', username: 'Ann', color: '#f00' }],
    into a room that holds the two strokes of the example. *)
Lemma join_room_messages_witness :
  ∃ m' peers,
    handle (run two_strokes) "c"
      (JoinRoom (Obj [("roomId", Str "room1"); ("username", Str "Ann");
                      ("color", Str "#f00")]))
    = Some (m', [Joined "c" "c" "room1" peers; Presence "room1" peers;
                 History "c" (last_n 500 (log (run two_strokes) "room1"))]) ∧
    peers = (getClients m' "room1").2.
Proof.
  destruct (join_room_messages two_strokes "c"
              (Obj [("roomId", Str "room1"); ("username", Str "Ann"); ("color", Str "#f00")])
              eq_refl) as (m' & peers & H1 & H2 & _).
  by exists m', peers.
Defined.

(** * The client's log *)

(** ** A duplicate is ignored *)

Lemma has_opID_app ops ops' k : has_opID (ops ++ ops') k = has_opID ops k || has_opID ops' k.
Proof. unfold has_opID. apply existsb_app. Qed.

Lemma has_opID_flag_all tgt b ops k : has_opID (flag_all tgt b ops) k = has_opID ops k.
Proof.
  unfold has_opID, flag_all. induction ops as [|o ops IH]; [done|].
  csimpl. rewrite IH. f_equal. by destruct (is_str tgt (opID o)).
Qed.

Lemma has_opID_apply_flags op ops k : has_opID (apply_flags op ops) k = has_opID ops k.
Proof.
  unfold apply_flags.
  repeat match goal with
         | |- context [if ?x then _ else _] => destruct x
         end; auto using has_opID_flag_all.
Qed.

Lemma applyStampedOp_has ops op k :
  has_opID ops k = true ∨ k = opID op → has_opID (applyStampedOp ops op) k = true.
Proof.
  intros Hk. unfold applyStampedOp.
  destruct (has_opID ops (opID op)) eqn:E.
  - destruct Hk as [? | ->]; done.
  - rewrite has_opID_apply_flags, has_opID_app. destruct Hk as [-> | ->]; [done|].
    unfold has_opID at 2. simpl. rewrite String.eqb_refl. apply orb_true_r.
Qed.

Lemma foldl_applyStampedOp_has ops later k :
  has_opID ops k = true → has_opID (foldl applyStampedOp ops later) k = true.
Proof.
  revert ops. induction later as [|op later IH]; intros ops Hk; [done|].
  simpl. apply IH, applyStampedOp_has. by left.
Qed.

(** An operation delivered again, at once or after any other operations, is
    ignored: [app.ops] stays as it is. *)
Theorem duplicate_delivery (ops later : list Op) (op : Op) :
  applyStampedOp (foldl applyStampedOp (applyStampedOp ops op) later) op
  = foldl applyStampedOp (applyStampedOp ops op) later.
Proof.
  unfold applyStampedOp at 1.
  rewrite foldl_applyStampedOp_has; [done|].
  apply applyStampedOp_has. by right.
Qed.

(** ** The client's log follows the server's *)

Lemma replica_of_refl o : replica_of o o.
Proof. split; auto. Qed.

Lemma replica_of_opID oc os : replica_of oc os → opID oc = opID os.
Proof. intros [E _]. by injection E. Qed.

Lemma replica_of_type oc os : replica_of oc os → type oc = type os.
Proof. intros [E _]. by injection E. Qed.

Lemma replica_of_flag b oc os :
  replica_of oc os → replica_of (set_active b oc) (set_active b os).
Proof. intros [E _]. split; [done | by left]. Qed.

Lemma Forall2_refl_replica (l : list Op) : Forall2 replica_of l l.
Proof. induction l; constructor; auto using replica_of_refl. Qed.

Lemma flag_all_replica tgt b (C W : list Op) :
  Forall2 replica_of C W → Forall2 replica_of (flag_all tgt b C) (flag_all tgt b W).
Proof.
  unfold flag_all. induction 1 as [|oc os C W Hr _ IH]; csimpl; constructor; [|done].
  rewrite (replica_of_opID _ _ Hr).
  destruct (is_str tgt (opID os)); [by apply replica_of_flag | done].
Qed.

(** The client's step on its copy matches the server's step on the log. *)
Lemma apply_flags_replica u (C W : list Op) :
  Forall2 replica_of C W →
  Forall2 replica_of (apply_flags u (C ++ [u])) (apply_flags u W ++ [u]).
Proof.
  intros Hr.
  assert (∀ b, type u = Str "undo" ∨ type u = Str "redo" →
            Forall2 replica_of (flag_all (requested_target (payload u)) b (C ++ [u]))
                               (flag_all (requested_target (payload u)) b W ++ [u])) as Hflag.
  { intros b Hty. rewrite flag_all_app. apply Forall2_app; [by apply flag_all_replica|].
    unfold flag_all. csimpl. constructor; [|constructor].
    destruct (is_str _ (opID u)); [|apply replica_of_refl].
    split; [done|]. right. destruct Hty as [-> | ->]; auto. }
  assert (Forall2 replica_of (C ++ [u]) (W ++ [u])) as Hid.
  { apply Forall2_app; [done|]. constructor; [apply replica_of_refl | constructor]. }
  unfold apply_flags.
  destruct (is_str (type u) "stroke"); [done|].
  destruct (is_str (type u) "undo") eqn:Hu.
  { destruct (truthy _); [|done]. apply Hflag. left. by apply is_str_true. }
  destruct (is_str (type u) "redo") eqn:Hr'; [|done].
  destruct (truthy _); [|done]. apply Hflag. right. by apply is_str_true.
Qed.

Lemma apply_flags_length u (l : list Op) : length (apply_flags u l) = length l.
Proof.
  unfold apply_flags, flag_all.
  repeat match goal with
         | |- context [if ?x then _ else _] => destruct x
         end; by rewrite ?length_fmap.
Qed.

Lemma apply_flags_drop u k (l : list Op) :
  drop k (apply_flags u l) = apply_flags u (drop k l).
Proof.
  unfold apply_flags, flag_all.
  repeat match goal with
         | |- context [if ?x then _ else _] => destruct x
         end; by rewrite ?fmap_drop.
Qed.

Lemma replica_has_opID (C W : list Op) k :
  Forall2 replica_of C W → has_opID C k = true → ∃ os, os ∈ W ∧ opID os = k.
Proof.
  unfold has_opID. induction 1 as [|oc os C W Hr _ IH]; simpl; [done|].
  intros [E|E]%orb_true_iff.
  - apply String.eqb_eq in E. exists os. split; [left|].
    by rewrite <- (replica_of_opID _ _ Hr).
  - destruct (IH E) as (o & Ho & <-). exists o. split; [by right | done].
Qed.

Lemma exec_log_same m c rid :
  wf m →
  match c with AppendOp r _ _ _ => r ≠ rid | _ => True end →
  log (exec m c) rid = log m rid.
Proof.
  intros Hwf Hc.
  destruct c as [r s u c|s|r|r lim|r raw s now]; simpl;
    rewrite ?getClients_fst, ?getHistory_fst, ?ensure_log, ?addClient_log,
      ?removeClientBySocket_log; try done.
  apply appendOp_log_other; [done | by auto].
Qed.

Lemma follow_broadcasts rid k cs :
  ∀ m C, wf m → k ≤ length (log m rid) →
    Forall2 replica_of C (drop k (log m rid)) →
    Forall2 replica_of (foldl applyStampedOp C (broadcasts rid m cs))
                       (drop k (log (foldl exec m cs) rid)).
Proof.
  induction cs as [|c cs IH]; intros m C Hwf Hk Hrep; [done|].
  simpl. rewrite foldl_app.
  assert (wf (exec m c)) as Hwf' by by apply wf_exec.
  assert (∀ C', (match c with AppendOp r _ _ _ => r ≠ rid | _ => True end) →
                C' = C →
                Forall2 replica_of (foldl applyStampedOp C' (broadcasts rid (exec m c) cs))
                        (drop k (log (foldl exec (exec m c) cs) rid))) as Hskip.
  { intros C' Hc ->. apply IH; [done|..]; by rewrite exec_log_same. }
  destruct c as [r s u c|s|r|r lim|r raw s now]; try by apply Hskip.
  destruct (decide (r = rid)) as [->|Hne]; [|by apply Hskip].
  rewrite appendOp_stamped. simpl.
  set (u := stamped_op m rid raw s now).
  assert (log (appendOp m rid raw s now).1 rid = apply_flags u (log m rid) ++ [u]) as Hlog
    by by apply appendOp_log_apply_flags.
  apply IH; [done | |].
  - simpl. rewrite Hlog, length_app, apply_flags_length. lia.
  - simpl. rewrite Hlog.
    rewrite drop_app_le by by rewrite apply_flags_length.
    rewrite apply_flags_drop.
    assert (has_opID C (opID u) = false) as Hfresh.
    { destruct (has_opID C (opID u)) eqn:E; [|done].
      destruct (replica_has_opID _ _ _ Hrep E) as (os & Hos & Hid).
      apply list_elem_of_lookup in Hos as [j Hj]. rewrite lookup_drop in Hj.
      destruct (log_seq_opID m rid _ os Hwf Hj) as [_ Hid'].
      rewrite Hid' in Hid. unfold u, stamped_op in Hid. simpl in Hid.
      apply mk_opID_inj in Hid as [_ [= Hn]].
      apply lookup_lt_Some in Hj. rewrite log_length in Hj by done. exfalso. lia. }
    unfold applyStampedOp. rewrite Hfresh. by apply apply_flags_replica.
Qed.

Lemma visible_replica (C W : list Op) :
  Forall2 replica_of C W →
  filter (λ o, active_stroke o = true) C = filter (λ o, active_stroke o = true) W.
Proof.
  induction 1 as [|oc os C W Hr _ IH]; [done|].
  rewrite !filter_cons. rewrite IH.
  destruct Hr as [E Hact].
  assert (type oc = type os) as Hty by by injection E.
  destruct (decide (active_stroke os = true)) as [Hs|Hs].
  - unfold active_stroke in Hs. apply andb_true_iff in Hs as [Hst Hos].
    assert (active oc = active os) as Ha.
    { destruct Hact as [|[Hu|Hr]]; [done|..]; apply is_str_true in Hst;
        rewrite Hst in *; done. }
    assert (oc = os) as ->.
    { destruct oc, os. simpl in *. injection E as -> -> -> -> -> ->. by subst. }
    rewrite decide_True; [done|]. unfold active_stroke. by rewrite Hst, Hos.
  - rewrite decide_False; [done|]. intros Hc. apply Hs.
    unfold active_stroke in *. rewrite Hty in Hc.
    apply andb_true_iff in Hc as [Hst Hoc]. rewrite Hst. simpl.
    destruct Hact as [<-|[Hu|Hr]]; [done|..]; apply is_str_true in Hst;
      rewrite Hst in *; done.
Qed.

Lemma follow_calls (cs0 cs1 : list call) (roomId : RoomId) :
  Forall2 replica_of
    (foldl applyStampedOp (syncOpsFromServer (history_sent (run cs0) roomId))
           (broadcasts roomId (run cs0) cs1))
    (drop (length (log (run cs0) roomId) - 500) (log (run (cs0 ++ cs1)) roomId)).
Proof.
  rewrite run_app. apply follow_broadcasts; [apply wf_run | lia |].
  unfold syncOpsFromServer. rewrite history_sent_eq by apply wf_run.
  unfold last_n. apply Forall2_refl_replica.
Qed.

Lemma broadcasts_app rid m cs1 cs2 :
  broadcasts rid m (cs1 ++ cs2)
  = broadcasts rid m cs1 ++ broadcasts rid (foldl exec m cs1) cs2.
Proof.
  revert m. induction cs1 as [|c cs1 IH]; intros m; [done|].
  simpl. by rewrite IH, app_assoc.
Qed.

Lemma broadcasts_getClients rid m l : broadcasts rid m (GetClients <$> l) = [].
Proof. revert m. induction l as [|r l IH]; intros m; [done|]. csimpl. apply IH. Qed.

Lemma notify_left_broadcasts rid m l : room_broadcasts rid (notify_left m l).2 = [].
Proof.
  revert m. induction l as [|r l IH]; intros m; [done|].
  csimpl. destruct (getClients m r) as [m1 cl]. specialize (IH m1).
  by destruct (notify_left m1 l) as [m2 out].
Qed.

Lemma handle_broadcasts rid cs sock e m' out :
  handle (run cs) sock e = Some (m', out) →
  ∃ cs', m' = run (cs ++ cs') ∧ room_broadcasts rid out = broadcasts rid (run cs) cs'.
Proof.
  destruct e as [arg|op now|arg|]; simpl.
  - destruct (is_null arg); [done|].
    set (r := room_key _ _).
    set (u := or_default (get_prop arg "username") (Str "Anon")).
    set (c := or_default (get_prop arg "color") (Str "#000000")).
    destruct (addClient (run cs) r sock u c) as [m1 r1] eqn:E1.
    destruct (getClients m1 r) as [m2 r2] eqn:E2.
    destruct (getClients m2 r) as [m3 r3] eqn:E3.
    destruct (getHistory m3 r None) as [m4 r4] eqn:E4.
    intros [= <- <-].
    exists [AddClient r sock u c; GetClients r; GetClients r; GetHistory r None].
    split; [|done].
    rewrite run_app. simpl. rewrite E1. simpl. rewrite E2. simpl. rewrite E3. simpl.
    by rewrite E4.
  - destruct (negb (truthy op) || negb (truthy (get_prop op "type"))).
    { intros [= <- <-]. exists []. by rewrite app_nil_r. }
    destruct op as [| | | | | |raw];
      try (intros [= <- <-]; exists []; by rewrite app_nil_r).
    destruct (template_throws _); [done|].
    set (r := room_key _ _).
    pose proof (appendOp_stamped (run cs) r raw sock now) as Hst.
    destruct (appendOp (run cs) r raw sock now) as [m1 l] eqn:Ea.
    intros [= <- <-]. exists [AppendOp r raw sock now]. split.
    + rewrite run_snoc. simpl. by rewrite Ea.
    + simpl in *. rewrite Ea. simpl. rewrite Hst. simpl. rewrite app_nil_r.
      by destruct (decide (r = rid)).
  - destruct (is_null arg); [done|].
    intros [= <- <-]. exists []. by rewrite app_nil_r.
  - destruct (removeClientBySocket (run cs) sock) as [m1 left] eqn:Er.
    intros Heq. injection Heq as Heq.
    exists (RemoveClientBySocket sock :: (GetClients <$> left)). split.
    + rewrite run_app. simpl. rewrite Er. simpl.
      rewrite <- notify_left_fst. by rewrite Heq.
    + simpl. rewrite broadcasts_getClients.
      pose proof (notify_left_broadcasts rid m1 left) as Hn. by rewrite Heq in Hn.
Qed.

Lemma serve_broadcasts rid cs evs m' out :
  serve (run cs) evs = Some (m', out) →
  ∃ cs', m' = run (cs ++ cs') ∧ room_broadcasts rid out = broadcasts rid (run cs) cs'.
Proof.
  revert cs out. induction evs as [|[sock e] evs IH]; intros cs out; simpl.
  - intros [= <- <-]. exists []. by rewrite app_nil_r.
  - destruct (handle (run cs) sock e) as [[m1 out1]|] eqn:Eh; [|done].
    apply (handle_broadcasts rid) in Eh as (cs1 & -> & Hb1).
    destruct (serve (run (cs ++ cs1)) evs) as [[m2 out2]|] eqn:Es; [|done].
    intros [= <- <-]. apply IH in Es as (cs2 & -> & Hb2).
    exists (cs1 ++ cs2). split; [by rewrite app_assoc|].
    unfold room_broadcasts in *. rewrite omap_app, Hb1, Hb2.
    by rewrite broadcasts_app, <- run_app.
Qed.

(** *** The layers and the canvas *)

Lemma upto_all {A} (f : A → bool) (l : list A) : forallb f l = true → upto f l = l.
Proof.
  induction l as [|x l IH]; simpl; [done|].
  intros [-> Hl]%andb_true_iff. by rewrite IH.
Qed.

Lemma upto_snoc_stop {A} (f : A → bool) (l : list A) x :
  f x = false → upto f (l ++ [x]) = upto f l.
Proof.
  intros Hx. induction l as [|y l IH]; simpl; [by rewrite Hx|].
  destruct (f y); [by rewrite IH | done].
Qed.

Lemma filter_active_cons (o : Op) (l : list Op) :
  filter (λ o, active_stroke o = true) (o :: l)
  = if is_str (type o) "stroke" && active o
    then o :: filter (λ o, active_stroke o = true) l
    else filter (λ o, active_stroke o = true) l.
Proof.
  rewrite filter_cons.
  destruct (decide (active_stroke o = true)) as [Ho|Ho]; unfold active_stroke in Ho;
    by destruct (is_str (type o) "stroke" && active o).
Qed.

Lemma opID_NoDup_eq (l : list Op) o1 o2 :
  NoDup (opID <$> l) → o1 ∈ l → o2 ∈ l → opID o1 = opID o2 → o1 = o2.
Proof.
  intros Hnd [i Hi]%list_elem_of_lookup [j Hj]%list_elem_of_lookup Heq.
  assert (i = j) as ->; [|congruence].
  apply (NoDup_lookup _ i j (opID o1) Hnd); rewrite list_lookup_fmap.
  - by rewrite Hi.
  - by rewrite Hj, Heq.
Qed.

(** The compositing loop draws the active strokes in order, up to the first
    whose layer cannot be made. *)
Lemma composite_spec path (ops : list Op) :
  ∀ cache,
    NoDup (opID <$> ops) →
    (∀ o, o ∈ ops → opID o ∈ cache → renderStrokeToLayer path o = true) →
    (composite path cache ops).1.2
    = upto (renderStrokeToLayer path) (filter (λ o, active_stroke o = true) ops) ∧
    (composite path cache ops).2
    = forallb (renderStrokeToLayer path) (filter (λ o, active_stroke o = true) ops) ∧
    ∀ k, k ∈ (composite path cache ops).1.1 →
         k ∈ cache ∨ ∃ o, o ∈ ops ∧ opID o = k ∧ renderStrokeToLayer path o = true.
Proof.
  induction ops as [|op rest IH]; intros cache Hnd Hc.
  { simpl. split_and!; auto. }
  rewrite fmap_cons in Hnd. apply NoDup_cons in Hnd as [Hfresh Hnd].
  rewrite filter_active_cons. simpl.
  destruct (is_str (type op) "stroke" && active op).
  - case_bool_decide as Hin.
    + assert (renderStrokeToLayer path op = true) as Hop by (apply Hc; [left | done]).
      destruct (IH cache Hnd) as (H1 & H2 & H3).
      { intros o Ho. apply Hc. by right. }
      destruct (composite path cache rest) as [[c d] ok]. simpl in *.
      rewrite Hop. simpl. split_and!; [by f_equal | done |].
      intros k Hk. destruct (H3 k Hk) as [?|(o & Ho & ? & ?)]; [by left|].
      right. exists o. split_and!; [by right | done | done].
    + destruct (renderStrokeToLayer path op) eqn:Hop.
      * destruct (IH (opID op :: cache) Hnd) as (H1 & H2 & H3).
        { intros o Ho [Heq|Hk]%elem_of_cons; [|apply Hc; [by right | done]].
          exfalso. apply Hfresh. rewrite <- Heq. apply list_elem_of_fmap. by exists o. }
        destruct (composite path (opID op :: cache) rest) as [[c d] ok]. simpl in *.
        rewrite Hop. simpl. split_and!; [by f_equal | done |].
        intros k Hk. destruct (H3 k Hk) as [[->|?]%elem_of_cons|(o & Ho & ? & ?)].
        -- right. exists op. split_and!; [left | done | done].
        -- by left.
        -- right. exists o. split_and!; [by right | done | done].
      * simpl. rewrite Hop. simpl. split_and!; auto.
  - destruct (IH cache Hnd) as (H1 & H2 & H3).
    { intros o Ho. apply Hc. by right. }
    split_and!; [done | done |].
    intros k Hk. destruct (H3 k Hk) as [?|(o & Ho & ? & ?)]; [by left|].
    right. exists o. split_and!; [by right | done | done].
Qed.

Lemma redrawAll_ops path a : app_ops (redrawAll path a) = app_ops a.
Proof.
  unfold redrawAll. by destruct (composite path (layerCache a) (app_ops a)) as [[c d] ok].
Qed.

Lemma redrawAll_spec path a :
  cache_ok path a →
  cache_ok path (redrawAll path a) ∧
  canvas (redrawAll path a)
  = upto (renderStrokeToLayer path) (filter (λ o, active_stroke o = true) (app_ops a)).
Proof.
  intros [Hnd Hc].
  destruct (composite_spec path (app_ops a) (layerCache a) Hnd) as (H1 & _ & H3).
  { intros o Ho Hk. destruct (Hc _ Hk) as (o' & Ho' & Hid & Hr).
    by rewrite (opID_NoDup_eq _ o o' Hnd Ho Ho'). }
  unfold redrawAll.
  destruct (composite path (layerCache a) (app_ops a)) as [[c d] ok]. simpl in *.
  split; [|done]. split; [done|]. simpl.
  intros k Hk. destruct (H3 k Hk) as [?|?]; auto.
Qed.

Lemma sync_layers_spec path (ops : list Op) :
  ∀ cache,
    (sync_layers path cache ops).2
    = forallb (renderStrokeToLayer path) (filter (λ o, active_stroke o = true) ops) ∧
    ∀ k, k ∈ (sync_layers path cache ops).1 →
         k ∈ cache ∨ ∃ o, o ∈ ops ∧ opID o = k ∧ renderStrokeToLayer path o = true.
Proof.
  induction ops as [|op rest IH]; intros cache.
  { simpl. auto. }
  rewrite filter_active_cons. simpl.
  destruct (is_str (type op) "stroke" && active op).
  - simpl. destruct (renderStrokeToLayer path op) eqn:Hop; simpl; [|auto].
    destruct (IH (opID op :: cache)) as [H1 H2]. split; [done|].
    intros k Hk. destruct (H2 k Hk) as [[->|?]%elem_of_cons|(o & Ho & ? & ?)].
    + right. exists op. split_and!; [left | done | done].
    + by left.
    + right. exists o. split_and!; [by right | done | done].
  - destruct (IH cache) as [H1 H2]. split; [done|].
    intros k Hk. destruct (H2 k Hk) as [?|(o & Ho & ? & ?)]; [by left|].
    right. exists o. split_and!; [by right | done | done].
Qed.

(** After the history the client has the operations of the server and a
    cache in order; the canvas shows the active strokes when the layer of
    each could be made. *)
Lemma on_history_spec path a (h : list Op) :
  NoDup (opID <$> h) →
  cache_ok path (on_history path a h) ∧
  app_ops (on_history path a h) = h ∧
  (forallb (renderStrokeToLayer path) (filter (λ o, active_stroke o = true) h) = true →
   canvas (on_history path a h) = filter (λ o, active_stroke o = true) h).
Proof.
  intros Hnd. unfold on_history, syncOpsFromServer.
  destruct (sync_layers_spec path h []) as [Hok Hkeys].
  destruct (sync_layers path [] h) as [c ok]. simpl in *.
  assert (cache_ok path {| app_ops := h; layerCache := c; canvas := canvas a |}) as Hcok.
  { split; [done|]. simpl. intros k Hk.
    destruct (Hkeys k Hk) as [Hn|?]; [|done]. by apply elem_of_nil in Hn. }
  destruct ok.
  - destruct (redrawAll_spec path _ Hcok) as [H1 H2].
    split_and!; [done | by rewrite redrawAll_ops |].
    intros Hall. rewrite H2. simpl. by apply upto_all.
  - split_and!; [done | done |]. intros Hall. congruence.
Qed.

Lemma renderStrokeToLayer_flag path b o :
  renderStrokeToLayer path (set_active b o) = renderStrokeToLayer path o.
Proof. done. Qed.

Lemma apply_flags_opIDs u (l : list Op) : opID <$> apply_flags u l = opID <$> l.
Proof.
  assert (∀ tgt b, opID <$> flag_all tgt b l = opID <$> l) as Hf.
  { intros tgt b. unfold flag_all. rewrite <- list_fmap_compose.
    apply list_fmap_ext. intros _ o _. simpl. by destruct (is_str tgt (opID o)). }
  unfold apply_flags.
  repeat match goal with
         | |- context [if ?x then _ else _] => destruct x
         end; auto.
Qed.

Lemma apply_flags_elem path u (l : list Op) o :
  o ∈ l →
  ∃ o', o' ∈ apply_flags u l ∧ opID o' = opID o ∧
        renderStrokeToLayer path o' = renderStrokeToLayer path o.
Proof.
  intros Ho.
  assert (∀ tgt b, ∃ o', o' ∈ flag_all tgt b l ∧ opID o' = opID o ∧
            renderStrokeToLayer path o' = renderStrokeToLayer path o) as Hf.
  { intros tgt b. unfold flag_all.
    exists (if is_str tgt (opID o) then set_active b o else o). split.
    - apply list_elem_of_fmap. by exists o.
    - by destruct (is_str tgt (opID o)). }
  unfold apply_flags.
  repeat match goal with
         | |- context [if ?x then _ else _] => destruct x
         end; auto; by exists o.
Qed.

Lemma has_opID_false (l : list Op) k : has_opID l k = false → k ∉ opID <$> l.
Proof.
  unfold has_opID. intros Hf [o [-> Ho]]%list_elem_of_fmap.
  assert (existsb (λ o', String.eqb (opID o') (opID o)) l = true) as Ht.
  { apply existsb_exists. exists o. split; [by apply list_elem_of_In | apply String.eqb_refl]. }
  congruence.
Qed.

(** One operation from the server: the log of the client is that of
    [applyStampedOp], the cache stays in order, and a canvas that showed the
    active strokes up to the first that cannot be drawn still does. *)
Lemma on_op_spec path a op :
  cache_ok path a →
  cache_ok path (on_op path a op) ∧
  app_ops (on_op path a op) = applyStampedOp (app_ops a) op ∧
  (canvas a = upto (renderStrokeToLayer path)
                   (filter (λ o, active_stroke o = true) (app_ops a)) →
   canvas (on_op path a op)
   = upto (renderStrokeToLayer path)
          (filter (λ o, active_stroke o = true) (app_ops (on_op path a op)))).
Proof.
  intros [Hnd Hc]. unfold on_op, applyStampedOp.
  destruct (has_opID (app_ops a) (opID op)) eqn:Hhas; [by split_and!|].
  apply has_opID_false in Hhas.
  assert (NoDup (opID <$> app_ops a ++ [op])) as Hnd1.
  { rewrite fmap_app. apply NoDup_app. split_and!; [done | | apply NoDup_singleton].
    intros k Hk [->|Hn]%elem_of_cons; [done | by apply elem_of_nil in Hn]. }
  assert (∀ k, k ∈ layerCache a →
            ∃ o, o ∈ apply_flags op (app_ops a ++ [op]) ∧ opID o = k ∧
                 renderStrokeToLayer path o = true) as Hc1.
  { intros k Hk. destruct (Hc k Hk) as (o & Ho & Hid & Hr).
    destruct (apply_flags_elem path op (app_ops a ++ [op]) o) as (o' & Ho' & Hid' & Hr').
    { apply elem_of_app. by left. }
    exists o'. split_and!; [done | congruence | congruence]. }
  assert (NoDup (opID <$> apply_flags op (app_ops a ++ [op]))) as Hnd2
    by by rewrite apply_flags_opIDs.
  destruct (is_str (type op) "stroke") eqn:Hst.
  - assert (apply_flags op (app_ops a ++ [op]) = app_ops a ++ [op]) as Hfl
      by (unfold apply_flags; by rewrite Hst).
    rewrite Hfl in *.
    destruct (renderStrokeToLayer path op) eqn:Hop.
    + destruct (redrawAll_spec path
                  {| app_ops := app_ops a ++ [op]; layerCache := opID op :: layerCache a;
                     canvas := canvas a |}) as [H1 H2].
      { split; [done|]. simpl. intros k [->|Hk]%elem_of_cons; [|auto].
        exists op. split_and!; [|done..]. apply elem_of_app. right. left. }
      split_and!; [done | by rewrite redrawAll_ops |].
      intros _. by rewrite H2, redrawAll_ops.
    + split_and!; [by split | done |]. simpl. intros ->.
      rewrite filter_app. rewrite (filter_active_cons op []), filter_nil.
      destruct (is_str (type op) "stroke" && active op).
      * by rewrite upto_snoc_stop.
      * by rewrite app_nil_r.
  - destruct (redrawAll_spec path
                {| app_ops := apply_flags op (app_ops a ++ [op]);
                   layerCache := layerCache a; canvas := canvas a |}) as [H1 H2];
      [by split|].
    split_and!; [done | by rewrite redrawAll_ops |].
    intros _. by rewrite H2, redrawAll_ops.
Qed.

Lemma foldl_on_op path (bs : list Op) :
  ∀ a, cache_ok path a →
    cache_ok path (foldl (on_op path) a bs) ∧
    app_ops (foldl (on_op path) a bs) = foldl applyStampedOp (app_ops a) bs ∧
    (canvas a = upto (renderStrokeToLayer path)
                     (filter (λ o, active_stroke o = true) (app_ops a)) →
     canvas (foldl (on_op path) a bs)
     = upto (renderStrokeToLayer path)
            (filter (λ o, active_stroke o = true) (app_ops (foldl (on_op path) a bs)))).
Proof.
  induction bs as [|op bs IH]; intros a Hok; [by split_and!|].
  simpl. destruct (on_op_spec path a op Hok) as (H1 & H2 & H3).
  destruct (IH _ H1) as (I1 & I2 & I3).
  split_and!; [done | by rewrite I2, H2 | auto].
Qed.

Lemma history_sent_NoDup cs rid : NoDup (opID <$> history_sent (run cs) rid).
Proof.
  rewrite history_sent_eq by apply wf_run. unfold last_n.
  rewrite fmap_drop.
  apply (sublist_NoDup _ (opID <$> log (run cs) rid)); [|apply sublist_drop].
  apply log_opIDs_NoDup, wf_run.
Qed.

(** A client that takes the history of a room and then every operation the
    server broadcasts to that room, in order, while the server handles any
    socket events, holds a copy of the server's log from the first
    operation of the history on: entry by entry the same operation, with
    the same [active] flag on everything but undo and redo markers.  A
    redraw then composites the active strokes of that part of the server's
    log, in log order, up to the first whose layer cannot be made (a stroke
    with a null payload, for one), and all of them when every layer can be
    made; the canvas shows them already when the layers of the history
    could be made.  When the log had at most 500 operations at the join,
    that part is the whole log. *)
Theorem client_follows_server (path : value → bool) (a0 : App) (cs0 : list call)
    (evs : list (string * inbound)) (m1 : RoomManager) (out : list outbound)
    (roomId : RoomId) :
  serve (run cs0) evs = Some (m1, out) →
  let k := length (log (run cs0) roomId) - 500 in
  let h := history_sent (run cs0) roomId in
  let a := foldl (on_op path) (on_history path a0 h) (room_broadcasts roomId out) in
  let strokes := filter (λ o, active_stroke o = true) (drop k (log m1 roomId)) in
  Forall2 replica_of (app_ops a) (drop k (log m1 roomId)) ∧
  canvas (redrawAll path a) = upto (renderStrokeToLayer path) strokes ∧
  (forallb (renderStrokeToLayer path) strokes = true →
   canvas (redrawAll path a) = strokes) ∧
  (forallb (renderStrokeToLayer path) (filter (λ o, active_stroke o = true) h) = true →
   canvas a = upto (renderStrokeToLayer path) strokes) ∧
  (length (log (run cs0) roomId) ≤ 500 → drop k (log m1 roomId) = log m1 roomId).
Proof.
  intros Hserve k h a strokes.
  apply (serve_broadcasts roomId) in Hserve as (cs1 & -> & Hb).
  destruct (on_history_spec path a0 h (history_sent_NoDup cs0 roomId)) as (Hok & Hops & Hcv).
  destruct (foldl_on_op path (room_broadcasts roomId out) _ Hok) as (Hok' & Hops' & Hcv').
  fold a in Hok', Hops', Hcv'. rewrite Hops in Hops', Hcv'.
  assert (Forall2 replica_of (app_ops a) (drop k (log (run (cs0 ++ cs1)) roomId))) as Hrep.
  { rewrite Hops'. unfold h, k. rewrite Hb. apply follow_calls. }
  assert (filter (λ o, active_stroke o = true) (app_ops a) = strokes) as Hvis
    by by apply visible_replica.
  destruct (redrawAll_spec path a Hok') as [_ Hre]. rewrite Hvis in Hre.
  split_and!; [done | done | | |].
  - intros Hall. rewrite Hre. by apply upto_all.
  - intros Hall. rewrite <- Hvis. apply Hcv'.
    rewrite (Hcv Hall). symmetry. by apply upto_all.
  - intros Hsmall. replace k with 0 by (unfold k; lia). by rewrite drop_0.
Qed.

(** The client joins a room that holds the two strokes; then a stroke with
    a null payload, a stroke and an undo are sent.  The undo takes the last
    stroke; the layer of the stroke with the null payload cannot be made,
    and the canvas shows the strokes before it. *)
Lemma client_follows_server_witness :
  ∃ m1 out,
    serve (run two_strokes)
      [("a", OpMsg (Obj [("type", Str "stroke"); ("payload", Null)]) 30%Z);
       ("a", OpMsg (Obj stroke_raw) 40%Z);
       ("b", OpMsg undo_message 50%Z)] = Some (m1, out) ∧
    canvas (foldl (on_op (λ _, true))
              (on_history (λ _, true) {| app_ops := []; layerCache := []; canvas := [] |}
                          (history_sent (run two_strokes) "room1"))
              (room_broadcasts "room1" out))
    = [S1; S2] ∧
    active_stroke <$> log m1 "room1" = [true; true; true; false; false].
Proof.
  destruct (serve (run two_strokes)
      [("a", OpMsg (Obj [("type", Str "stroke"); ("payload", Null)]) 30%Z);
       ("a", OpMsg (Obj stroke_raw) 40%Z);
       ("b", OpMsg undo_message 50%Z)]) as [[m1 out]|] eqn:E.
  - exists m1, out. split; [reflexivity|].
    destruct (client_follows_server (λ _, true)
                {| app_ops := []; layerCache := []; canvas := [] |}
                two_strokes _ m1 out "room1" E) as (_ & _ & _ & H & _).
    vm_compute in E. injection E as <- <-.
    split; [|reflexivity]. rewrite H; reflexivity.
  - vm_compute in E. discriminate E.
Defined.

(** ** The clear button *)

Lemma handle_op_accepted cs sock raw now r :
  truthy (assoc "type" raw) = true →
  template_throws (js_or (assoc "roomId" raw) (Str "room1")) = false →
  room_key (run cs) (js_or (assoc "roomId" raw) (Str "room1")) = r →
  handle (run cs) sock (OpMsg (Obj raw) now)
  = Some (run (cs ++ [AppendOp r raw sock now]),
          [OpBroadcast r (stamped_op (run cs) r raw sock now)]).
Proof.
  intros Hty Hprint <-. rewrite handle_op_logged by (done || apply wf_run).
  rewrite Hprint. by rewrite run_snoc.
Qed.

Lemma serve_undo_messages sock n :
  ∀ clock cs, ∃ undos out,
    serve (run cs) (deliver sock (replicate n undo_message) clock)
    = Some (run (cs ++ undos), out) ∧
    length undos = n ∧ length out = n ∧
    Forall (λ c, ∃ raw s now, c = AppendOp "room1" raw s now ∧
                              assoc "type" raw = Str "undo" ∧
                              truthy (requested_target (raw_payload raw)) = false) undos.
Proof.
  unfold deliver. induction n as [|n IH]; intros clock cs.
  - exists [], []. simpl. rewrite app_nil_r. by split_and!.
  - simpl replicate. rewrite imap_cons.
    set (raw := [("roomId", Str "room1"); ("type", Str "undo"); ("payload", Obj [])]).
    destruct (IH (clock ∘ S) (cs ++ [AppendOp "room1" raw sock (clock 0)]))
      as (undos & out & Hs & Hlu & Hlo & Hall).
    exists (AppendOp "room1" raw sock (clock 0) :: undos),
           (OpBroadcast "room1" (stamped_op (run cs) "room1" raw sock (clock 0)) :: out).
    split_and!.
    + cbn [serve]. change undo_message with (Obj raw) in *.
      rewrite (handle_op_accepted cs sock raw (clock 0) "room1") by done.
      change (imap _ (replicate n (Obj raw)))
        with (imap (λ i msg, (sock, OpMsg msg ((clock ∘ S) i))) (replicate n (Obj raw))).
      rewrite Hs. by rewrite <- app_assoc.
    + simpl. by rewrite Hlu.
    + simpl. by rewrite Hlo.
    + constructor; [|done]. by exists raw, sock, (clock 0).
Qed.

(** The clear button, once confirmed, sends one undo without target for
    each active stroke the client holds.  When the room has no more active
    strokes than that, and the server handles these messages one after the
    other, no active stroke is left in [room1]; each message is answered by
    one broadcast, and the other rooms are untouched.  When the user does
    not confirm, nothing is sent. *)
Theorem clear_clears (cs : list call) (ops : list Op) (sock : string) (clock : nat → Z) :
  active_count (log (run cs) "room1") ≤ active_count ops →
  (∃ m' out,
     serve (run cs) (deliver sock (clear_messages true ops) clock) = Some (m', out) ∧
     active_count (log m' "room1") = 0 ∧
     length out = active_count ops ∧
     ∀ rid : RoomId, rid ≠ RStr "room1" → log m' rid = log (run cs) rid) ∧
  clear_messages false ops = [].
Proof.
  intros Hle. split; [|done].
  change (clear_messages true ops) with (replicate (active_count ops) undo_message).
  destruct (serve_undo_messages sock (active_count ops) clock cs)
    as (undos & out & Hs & Hlu & Hlo & Hall).
  exists (run (cs ++ undos)), out. rewrite run_app.
  destruct (foldl_plain_undos (run cs) "room1" undos (wf_run cs) Hall) as [Hcount Hother].
  split_and!; [by rewrite <- run_app | lia | done | done].
Qed.

(** A client that holds the two strokes clears a room that holds them. *)
Lemma clear_clears_witness :
  active_count (log (run two_strokes) "room1") = 2 ∧
  ∃ m' out,
    serve (run two_strokes) (deliver "c" (clear_messages true [S1; S2]) (λ i, Z.of_nat i))
    = Some (m', out) ∧
    active_count (log m' "room1") = 0.
Proof.
  split; [reflexivity|].
  destruct (clear_clears two_strokes [S1; S2] "c" (λ i, Z.of_nat i)) as [(m' & out & H1 & H2 & _) _].
  { vm_compute. lia. }
  by exists m', out.
Defined.

(** ** Temporary identifiers *)

Lemma String_of_nat_inj n1 n2 : String_of_nat n1 = String_of_nat n2 → n1 = n2.
Proof.
  unfold String_of_nat. intros E.
  assert (Some (Nat.to_uint n1) = Some (Nat.to_uint n2)) as Hu
    by by rewrite <- !NilEmpty.usu, E.
  injection Hu as Hu.
  by rewrite <- (DecimalNat.Unsigned.of_to n1), <- (DecimalNat.Unsigned.of_to n2), Hu.
Qed.

(** [makeTempId] moves the counter up by one, and the identifiers made at
    different values of the counter differ, whatever the client identifier
    is at the time of either call: a temporary identifier is never made
    twice. *)
Theorem makeTempId_fresh (c1 c2 : option string) (n1 n2 : nat) :
  n1 ≠ n2 →
  (makeTempId c1 n1).2 ≠ (makeTempId c2 n2).2 ∧
  (makeTempId c1 n1).1 = S n1.
Proof.
  intros Hne. split; [|done]. unfold makeTempId. simpl. intros E.
  assert (∀ r p, r +:+ "::t" +:+ p = (r +:+ ":") +:+ String ":" (String "t" p)) as Hcut.
  { intros r p. by rewrite string_app_assoc. }
  rewrite !Hcut in E.
  apply split_last_colon in E as [_ E];
    [|simpl; apply has_colon_uint..].
  injection E as E. apply String_of_nat_inj in E. congruence.
Qed.

(** The first two identifiers a client makes, before and after it learns
    its socket identifier. *)
Lemma makeTempId_fresh_witness :
  (makeTempId None 0).2 = "local::t1" ∧
  (makeTempId None 0).2 ≠ (makeTempId (Some "sock7") 1).2.
Proof.
  split; [reflexivity|].
  apply (makeTempId_fresh None (Some "sock7") 0 1). discriminate.
Defined.

(** * The payload rule of [appendOp] *)

(** [appendOp] takes the raw operation itself for payload when it has no
    payload (or a falsy one other than null).  So an undo or a redo that
    carries its [targetOpID] beside its [type], without a payload, names its
    target all the same: the operation of the room with that identifier, if
    there is one, is left with [active = false] by the undo and with
    [active = true] by the redo, its other fields and the other entries as
    they were, and the whole raw operation is stored as the payload. *)
Theorem target_beside_type (cs : list call) (roomId : RoomId)
    (opRaw : list (string * value)) (socketId : string) (now : Z) (k : string) (b : bool) :
  truthy (assoc "payload" opRaw) = false → is_null (assoc "payload" opRaw) = false →
  assoc "targetOpID" opRaw = Str k → k ≠ "" →
  assoc "type" opRaw = Str (if b then "redo" else "undo") →
  ∃ u, log (appendOp (run cs) roomId opRaw socketId now).1 roomId
       = flag_all (Str k) b (log (run cs) roomId) ++ [u] ∧
       payload u = Obj opRaw ∧ active u = true ∧
       (∀ i o, log (run cs) roomId !! i = Some o → opID o = k →
               log (appendOp (run cs) roomId opRaw socketId now).1 roomId !! i
               = Some {| seq := seq o; opID := opID o; clientId := clientId o;
                         type := type o; payload := payload o;
                         timestamp := timestamp o; active := b |}) ∧
       (∀ i o, log (run cs) roomId !! i = Some o → opID o ≠ k →
               log (appendOp (run cs) roomId opRaw socketId now).1 roomId !! i
               = Some o).
Proof.
  intros Hp Hnull Htgt Hk Hty. pose proof (wf_run cs) as Hwf.
  set (u := stamped_op (run cs) roomId opRaw socketId now).
  assert (raw_payload opRaw = Obj opRaw) as Hraw
    by (unfold raw_payload; by rewrite Hp, Hnull).
  assert (requested_target (raw_payload opRaw) = Str k) as Hreq
    by (rewrite Hraw; unfold requested_target, js_and; simpl; done).
  assert (truthy (Str k) = true) as Htr.
  { simpl. apply negb_true_iff. by apply String.eqb_neq. }
  assert (payload u = Obj opRaw) as Hpl.
  { unfold u, stamped_op. simpl. rewrite <- Hraw. apply resolve_payload_kept.
    intros _. by rewrite Hreq. }
  assert (apply_flags u (log (run cs) roomId) = flag_all (Str k) b (log (run cs) roomId))
    as Hfl.
  { destruct b.
    - rewrite apply_flags_redo by done. by rewrite Hpl, <- Hraw, Hreq, Htr.
    - rewrite apply_flags_undo by done. by rewrite Hpl, <- Hraw, Hreq, Htr. }
  exists u. rewrite appendOp_log_apply_flags by done. fold u. rewrite Hfl.
  split_and!; [done..| |].
  - intros i o Hi <-. apply lookup_app_l_Some.
    rewrite (flag_all_hit _ _ i o b Hwf Hi).
    change (mkOp (seq o) (opID o) (clientId o) (type o) (payload o) (timestamp o) b)
      with (set_active b o).
    apply list_lookup_insert_eq. by eapply lookup_lt_Some.
  - intros i o Hi Hne. apply lookup_app_l_Some.
    unfold flag_all. rewrite list_lookup_fmap, Hi. simpl.
    destruct (String.eqb_spec k (opID o)); [by subst|done].
Qed.

(** [{ type: 'undo', targetOpID: 'room1::000001' }] undoes S1. *)
Lemma target_beside_type_witness :
  log (run two_strokes) "room1" !! 0 = Some S1 ∧
  log (appendOp (run two_strokes) "room1"
         [("type", Str "undo"); ("targetOpID", Str "room1::000001")] "c" 30%Z).1 "room1" !! 0
  = Some {| seq := 1; opID := "room1::000001"; clientId := "a"; type := Str "stroke";
            payload := Obj [("color", Str "#00b4d8"); ("width", Num 4);
                            ("tool", Str "brush")];
            timestamp := 10; active := false |}.
Proof.
  split; [reflexivity|].
  destruct (target_beside_type two_strokes "room1"
              [("type", Str "undo"); ("targetOpID", Str "room1::000001")] "c" 30%Z
              "room1::000001" false eq_refl eq_refl eq_refl ltac:(discriminate) eq_refl)
    as (u & _ & _ & _ & H & _).
  by apply (H 0 S1).
Defined.
